(** * Agentic retail analyst: the orchestration engine, embedded and verified

    A shallow embedding of the hybrid question-answering engine:

    - [agent/tools/sqlite_tool.py]   the query-store wrapper ([SQLResult], [execute],
                                     [schema]);
    - [agent/rag/retrieval.py]       the chunking of the corpus and the search;
    - [agent/dspy_signatures.py]     the router, query-generation, synthesizer and
                                     planner modules with their post-processing;
    - [agent/graph_hybrid.py]        the run state, the graph nodes, the error
                                     classifiers, the transition guards and the graph;
    - [run_agent_hybrid.py]          the batch driver's per-question wrapper.

    Conventions of the embedding.

    - Python text is a [string]; every text operation below is exact on ASCII
      text (case mapping, white space and digits are the ASCII ones).
    - Python [float] values are exact rationals ([Q]) extended with the two
      infinities and NaN: rounding error and overflow are not modelled.
    - A call that may raise returns [exc A]; [try: ... except:] is [catch].
    - The language model, the lexical retriever's scoring and the SQLite
      engine are collaborators: their answers are read from a [World], a
      script of responses indexed by the number of graph steps taken so far.
      Every theorem quantifies over all worlds.
    - The built-ins [str], [float], [json.loads] and [json.dumps] are an
      interface ([Builtins]); the general theorems hold for every
      implementation of it, and [cpython] is a concrete one used to
      evaluate the code on inputs. *)

From Stdlib Require Import ZArith QArith Qround Qpower String Ascii DecimalString List Bool Lia Lqa.
From stdpp Require Import base decidable option list strings gmap.
Import ListNotations.

Open Scope string_scope.
Open Scope Z_scope.

(* ===================================================================== *)
(** * Exceptions *)
(* ===================================================================== *)

Inductive exn_class : Type :=
  | ValueError
  | TypeError
  | AttributeError
  | OverflowError
  | JSONDecodeError
  | OtherError (name : string).

(** An exception object: its class and [str(e)]. *)
Record exn : Type := Exn { exn_cls : exn_class; exn_msg : string }.

Inductive exc (A : Type) : Type :=
  | Ok (a : A)
  | Raise (e : exn).
Arguments Ok {A} a.
Arguments Raise {A} e.

#[global] Instance exc_ret : MRet exc := fun A a => Ok a.
#[global] Instance exc_bind : MBind exc := fun A B f m =>
  match m with
  | Ok a => f a
  | Raise e => Raise e
  end.

(** [isinstance(e, cls)]; [json.JSONDecodeError] derives from [ValueError]. *)
Definition is_instance (e : exn) (c : exn_class) : bool :=
  match exn_cls e, c with
  | ValueError, ValueError | JSONDecodeError, ValueError
  | TypeError, TypeError | AttributeError, AttributeError
  | OverflowError, OverflowError | JSONDecodeError, JSONDecodeError => true
  | OtherError a, OtherError b => String.eqb a b
  | _, _ => false
  end.

(** [try: body except: handler] with a bare [except]. *)
Definition catch {A} (body : exc A) (handler : exc A) : exc A :=
  match body with
  | Ok a => Ok a
  | Raise _ => handler
  end.

(** [try: body except (c1, c2, ...): handler] *)
Definition catch_only {A} (classes : list exn_class) (body : exc A) (handler : exc A) : exc A :=
  match body with
  | Ok a => Ok a
  | Raise e => if existsb (is_instance e) classes then handler else Raise e
  end.

(* ===================================================================== *)
(** * Text *)
(* ===================================================================== *)

Module Text.

Definition code (c : ascii) : nat := nat_of_ascii c.

(** [c.isspace()] on ASCII. *)
Definition isspace (c : ascii) : bool :=
  let n := code c in
  ((9 <=? n)%nat && (n <=? 13)%nat) || ((28 <=? n)%nat && (n <=? 32)%nat).

Definition isdigit_char (c : ascii) : bool :=
  let n := code c in (48 <=? n)%nat && (n <=? 57)%nat.

Definition lower_char (c : ascii) : ascii :=
  let n := code c in
  if (65 <=? n)%nat && (n <=? 90)%nat then ascii_of_nat (n + 32) else c.

Fixpoint map (f : ascii -> ascii) (s : string) : string :=
  match s with
  | EmptyString => EmptyString
  | String c s' => String (f c) (map f s')
  end.

Fixpoint forallb (f : ascii -> bool) (s : string) : bool :=
  match s with
  | EmptyString => true
  | String c s' => f c && forallb f s'
  end.

(** [s.lower()] *)
Definition lower (s : string) : string := map lower_char s.

(** [s.isdigit()]: non-empty and all digits. *)
Definition isdigit (s : string) : bool :=
  match s with
  | EmptyString => false
  | _ => forallb isdigit_char s
  end.

(** [s.startswith(p)] *)
Definition startswith (s p : string) : bool := String.prefix p s.

(** [p in s] *)
Fixpoint contains (s p : string) : bool :=
  String.prefix p s ||
  match s with
  | EmptyString => false
  | String _ s' => contains s' p
  end.

Fixpoint lstrip (s : string) : string :=
  match s with
  | EmptyString => EmptyString
  | String c s' => if isspace c then lstrip s' else s
  end.

Fixpoint rstrip (s : string) : string :=
  match s with
  | EmptyString => EmptyString
  | String c s' =>
      match rstrip s' with
      | EmptyString => if isspace c then EmptyString else String c EmptyString
      | t => String c t
      end
  end.

(** [s.strip()] *)
Definition strip (s : string) : string := rstrip (lstrip s).

(** [s.endswith(p)] *)
Definition endswith (s p : string) : bool :=
  let n := String.length s in
  let m := String.length p in
  (m <=? n)%nat && String.eqb (String.substring (n - m) m s) p.

(** [s[:n]] *)
Definition take (n : nat) (s : string) : string := String.substring 0 n s.

(** The scanner behind [s.replace(old, new)] and [re.sub] with a literal
    pattern, for a non-empty [old]: left to right, every match is
    replaced and the scan resumes after it. [skip] counts the characters
    of a match still to be passed over. *)
Fixpoint replace_from (skip : nat) (old new s : string) : string :=
  match s with
  | EmptyString => EmptyString
  | String c s' =>
      match skip with
      | S k => replace_from k old new s'
      | O =>
          if String.prefix old s
          then new ++ replace_from (String.length old - 1) old new s'
          else String c (replace_from 0 old new s')
      end
  end.

Fixpoint intersperse (new s : string) : string :=
  match s with
  | EmptyString => EmptyString
  | String c s' => String c (new ++ intersperse new s')
  end.

(** [s.replace(old, new)]; an empty [old] matches between any two
    characters and at both ends. *)
Definition replace (s old new : string) : string :=
  match old with
  | EmptyString => new ++ intersperse new s
  | _ => replace_from 0 old new s
  end.

(** [sep.join(parts)] *)
Fixpoint join (sep : string) (parts : list string) : string :=
  match parts with
  | [] => EmptyString
  | [p] => p
  | p :: ps => p ++ sep ++ join sep ps
  end.

(** [s.split(sep)] for a non-empty [sep]: [cur] is the field being read,
    reversed. *)
Fixpoint split_from (skip : nat) (sep : string) (cur : string) (s : string) : list string :=
  match s with
  | EmptyString => [String.rev cur]
  | String c s' =>
      match skip with
      | S k => split_from k sep cur s'
      | O =>
          if String.prefix sep s
          then String.rev cur :: split_from (String.length sep - 1) sep EmptyString s'
          else split_from 0 sep (String c cur) s'
      end
  end.

Definition split (s sep : string) : list string := split_from 0 sep EmptyString s.

End Text.

(** [re.sub(pattern, repl, s)] for a pattern without metacharacters and a
    replacement without backslashes, which is all [_clean_sql] uses: the
    literal, leftmost, non-overlapping replacement. *)
Definition re_sub (pattern repl s : string) : string := Text.replace s pattern repl.

Definition dquote : string := String "034"%char EmptyString.

(* ===================================================================== *)
(** * Python values and the built-ins the engine calls *)
(* ===================================================================== *)

(** A [float]: an exact rational, an infinity or NaN. *)
Inductive pyfloat : Type :=
  | Finite (q : Q)
  | Inf (negative : bool)
  | NaN.

(** The values that travel through the engine: what [json.loads] returns,
    what a database cell holds, what the synthesizer answers. A [dict]
    keeps its items in insertion order. *)
#[local] Unset Elimination Schemes.
Inductive value : Type :=
  | VNone
  | VBool (b : bool)
  | VInt (n : Z)
  | VFloat (f : pyfloat)
  | VStr (s : string)
  | VList (xs : list value)
  | VDict (items : list (string * value)).
#[local] Set Elimination Schemes.

(** [isinstance(x, int)]; [bool] is a subclass of [int]. *)
Definition is_int (x : value) : bool :=
  match x with VInt _ | VBool _ => true | _ => false end.
Definition is_float (x : value) : bool :=
  match x with VFloat _ => true | _ => false end.
Definition is_str (x : value) : bool :=
  match x with VStr _ => true | _ => false end.
Definition is_list (x : value) : bool :=
  match x with VList _ => true | _ => false end.
Definition is_dict (x : value) : bool :=
  match x with VDict _ => true | _ => false end.

(** Truth value of a text or of a sequence: non-empty. *)
Definition nonempty (s : string) : bool :=
  match s with EmptyString => false | _ => true end.
Definition some_item {A} (l : list A) : bool :=
  match l with [] => false | _ => true end.

(** [int(f)]: truncation toward zero; an infinity overflows, NaN is
    rejected. *)
Definition py_int (f : pyfloat) : exc Z :=
  match f with
  | Finite q => Ok (Z.quot (Qnum q) (Z.pos (Qden q)))
  | Inf _ => Raise (Exn OverflowError "cannot convert float infinity to integer")
  | NaN => Raise (Exn ValueError "cannot convert float NaN to integer")
  end.

(** Nearest integer, ties to the even one. *)
Definition round_half_even (q : Q) : Z :=
  let n := Qfloor q in
  let r := (q - inject_Z n)%Q in
  match (r ?= 1 # 2)%Q with
  | Lt => n
  | Gt => n + 1
  | Eq => if Z.even n then n else n + 1
  end.

(** [round(q, 2)] on an exact rational. *)
Definition round2 (q : Q) : Q := (round_half_even (q * 100) # 100)%Q.

(** [round(f, 2)]: infinities and NaN are returned as they are. *)
Definition py_round2 (f : pyfloat) : pyfloat :=
  match f with
  | Finite q => Finite (round2 q)
  | _ => f
  end.

(** [max(a, b)] and [min(a, b)] as Python evaluates them: the first
    argument is kept unless the second is strictly better. *)
Definition py_max (a b : Q) : Q := if Qlt_le_dec a b then b else a.
Definition py_min (a b : Q) : Q := if Qlt_le_dec b a then b else a.

(** The library functions whose behaviour the engine relies on but does
    not define. [py_float] and [json_loads] raise on text they reject. *)
Class Builtins : Type := {
  py_str : value -> string;
  py_float : string -> exc pyfloat;
  json_loads : string -> exc value;
  json_dumps : value -> exc string;
}.

(* ===================================================================== *)
(** * A concrete implementation of the built-ins *)
(* ===================================================================== *)

(** [str], [float], [json.loads] and [json.dumps] as CPython computes
    them, on 8-bit text and exact rationals. Exact on ASCII input; a
    [\uXXXX] escape above U+00FF, which this text cannot hold, is rejected.
    The message of a decoding error is not modelled: no caller reads it. *)
Module CPython.
Import Text.

Definition chr (c : ascii) : string := String c EmptyString.
Definition same (c d : ascii) : bool := Ascii.eqb c d.

Definition digit (c : ascii) : option Z :=
  if isdigit_char c then Some (Z.of_nat (code c) - 48) else None.

Definition dec (n : Z) : string := NilZero.string_of_int (Z.to_int n).

Fixpoint zeros (n : nat) : string :=
  match n with O => EmptyString | S k => String "0" (zeros k) end.

Definition drop (n : nat) (s : string) : string :=
  String.substring n (String.length s - n) s.

(** ** [repr] of a float *)

(** The decimal exponent [e] of a positive [a/b]: [10^(e-1) <= a/b < 10^e]. *)
Fixpoint decpt_up (fuel : nat) (a b e : Z) : Z :=
  match fuel with
  | O => e
  | S f => if a <? 10 * b then e else decpt_up f a (10 * b) (e + 1)
  end.
Fixpoint decpt_down (fuel : nat) (a b e : Z) : Z :=
  match fuel with
  | O => e
  | S f => if b <=? 10 * a then e else decpt_down f (10 * a) b (e - 1)
  end.
Definition decpt (a b : Z) : Z :=
  if b <=? a then decpt_up (Z.to_nat (Z.log2 a + 1)) a b 1
  else decpt_down (Z.to_nat (Z.log2 b + 1)) a b 0.

Fixpoint strip_zeros (fuel : nat) (n : Z) : Z :=
  match fuel with
  | O => n
  | S f => if (n mod 10 =? 0) && negb (n =? 0) then strip_zeros f (n / 10) else n
  end.

(** Seventeen significant digits, trailing zeros removed, and the
    decimal exponent. *)
Definition digits17 (a b : Z) : string * Z :=
  let e := decpt a b in
  let scaled :=
    if 17 - e >=? 0 then (a * 10 ^ (17 - e) # Z.to_pos b)%Q
    else (a # Z.to_pos (b * 10 ^ (e - 17)))%Q in
  let n := round_half_even scaled in
  let '(n, e) := if 10 ^ 17 <=? n then (n / 10, e + 1) else (n, e) in
  (dec (strip_zeros 17 n), e).

Definition two_digits (n : Z) : string :=
  if n <? 10 then "0" ++ dec n else dec n.

Definition repr_positive (a b : Z) : string :=
  let '(d, e) := digits17 a b in
  let len := Z.of_nat (String.length d) in
  if (-4 <? e) && (e <=? 16) then
    if e <=? 0 then "0." ++ zeros (Z.to_nat (- e)) ++ d
    else if len <=? e then d ++ zeros (Z.to_nat (e - len)) ++ ".0"
    else take (Z.to_nat e) d ++ "." ++ drop (Z.to_nat e) d
  else
    take 1 d ++ (if 1 <? len then "." ++ drop 1 d else EmptyString)
      ++ "e" ++ (if e - 1 <? 0 then "-" else "+") ++ two_digits (Z.abs (e - 1)).

Definition repr_float (f : pyfloat) : string :=
  match f with
  | NaN => "nan"
  | Inf false => "inf"
  | Inf true => "-inf"
  | Finite q =>
      match Qnum q with
      | Z0 => "0.0"
      | Zpos a => repr_positive (Zpos a) (Zpos (Qden q))
      | Zneg a => "-" ++ repr_positive (Zpos a) (Zpos (Qden q))
      end
  end.

(** ** [repr] of a text *)

Definition hex_digit (n : nat) : string :=
  String.substring n 1 "0123456789abcdef".
Definition hex2 (n : nat) : string :=
  hex_digit (n / 16) ++ hex_digit (n mod 16).

Fixpoint escape (quote : ascii) (s : string) : string :=
  match s with
  | EmptyString => EmptyString
  | String c s' =>
      let n := code c in
      (if same c "\" then "\\"
       else if same c quote then "\" ++ chr quote
       else if (n =? 9)%nat then "\t"
       else if (n =? 10)%nat then "\n"
       else if (n =? 13)%nat then "\r"
       else if (n <? 32)%nat || (n =? 127)%nat then "\x" ++ hex2 n
       else chr c) ++ escape quote s'
  end.

Definition repr_str (s : string) : string :=
  let quote : ascii :=
    if contains s "'" && negb (contains s dquote) then "034"%char else "'"%char in
  chr quote ++ escape quote s ++ chr quote.

Fixpoint repr (v : value) : string :=
  match v with
  | VNone => "None"
  | VBool true => "True"
  | VBool false => "False"
  | VInt n => dec n
  | VFloat f => repr_float f
  | VStr s => repr_str s
  | VList xs => "[" ++ join ", " (List.map repr xs) ++ "]"
  | VDict items =>
      "{" ++ join ", " (List.map (fun kv => let '(k, x) := kv in repr_str k ++ ": " ++ repr x) items)
          ++ "}"
  end.

(** [str(v)] *)
Definition str (v : value) : string :=
  match v with
  | VStr s => s
  | _ => repr v
  end.

(** ** [json.dumps] *)

Fixpoint json_escape (s : string) : string :=
  match s with
  | EmptyString => EmptyString
  | String c s' =>
      let n := code c in
      (if same c "034" then "\" ++ dquote
       else if same c "\" then "\\"
       else if (n =? 10)%nat then "\n"
       else if (n =? 13)%nat then "\r"
       else if (n =? 9)%nat then "\t"
       else if (n =? 12)%nat then "\f"
       else if (n =? 8)%nat then "\b"
       else if (n <? 32)%nat || (126 <? n)%nat then "\u00" ++ hex2 n
       else chr c) ++ json_escape s'
  end.

Definition dumps_str (s : string) : string := dquote ++ json_escape s ++ dquote.

Definition dumps_float (f : pyfloat) : string :=
  match f with
  | NaN => "NaN"
  | Inf false => "Infinity"
  | Inf true => "-Infinity"
  | Finite _ => repr_float f
  end.

Fixpoint dumps (v : value) : string :=
  match v with
  | VNone => "null"
  | VBool true => "true"
  | VBool false => "false"
  | VInt n => dec n
  | VFloat f => dumps_float f
  | VStr s => dumps_str s
  | VList xs => "[" ++ join ", " (List.map dumps xs) ++ "]"
  | VDict items =>
      "{" ++ join ", " (List.map (fun kv => let '(k, x) := kv in dumps_str k ++ ": " ++ dumps x) items)
          ++ "}"
  end.

(** ** Decimal literals *)

(** [m * 10^e] *)
Definition decimal (m e : Z) : Q :=
  if 0 <=? e then (m * 10 ^ e # 1)%Q else (m # Z.to_pos (10 ^ (- e)))%Q.

(** A maximal run of digits, continuing the number [acc] of [cnt] digits. *)
Fixpoint read_digits (acc : Z) (cnt : nat) (s : string) : Z * nat * string :=
  match s with
  | String c s' =>
      match digit c with
      | Some d => read_digits (10 * acc + d) (S cnt) s'
      | None => (acc, cnt, s)
      end
  | EmptyString => (acc, cnt, s)
  end.

(** The same, where a single underscore may separate two digits. *)
Fixpoint more_digits (acc : Z) (cnt : nat) (s : string) : Z * nat * string :=
  match s with
  | String c s' =>
      match digit c with
      | Some d => more_digits (10 * acc + d) (S cnt) s'
      | None =>
          if same c "_" then
            match s' with
            | String c2 s'' =>
                match digit c2 with
                | Some d => more_digits (10 * acc + d) (S cnt) s''
                | None => (acc, cnt, s)
                end
            | EmptyString => (acc, cnt, s)
            end
          else (acc, cnt, s)
      end
  | EmptyString => (acc, cnt, s)
  end.

Definition digitpart (s : string) : option (Z * nat * string) :=
  match s with
  | String c s' =>
      match digit c with
      | Some d => Some (more_digits d 1 s')
      | None => None
      end
  | EmptyString => None
  end.

Definition read_sign (s : string) : bool * string :=
  match s with
  | String c s' =>
      if same c "-" then (true, s') else if same c "+" then (false, s') else (false, s)
  | EmptyString => (false, s)
  end.

Definition signed (negative : bool) (n : Z) : Z := if negative then - n else n.

(** ** [float(s)] *)

Definition float_of (s : string) : exc pyfloat :=
  let invalid := Exn ValueError ("could not convert string to float: " ++ repr_str s) in
  let '(negative, s1) := read_sign (strip s) in
  let word := lower s1 in
  if String.eqb word "inf" || String.eqb word "infinity" then Ok (Inf negative)
  else if String.eqb word "nan" then Ok NaN
  else
    let '(ip, icnt, s2) :=
      match digitpart s1 with Some r => r | None => (0, 0%nat, s1) end in
    let '(fp, fcnt, s3) :=
      match s2 with
      | String c r =>
          if same c "." then
            match digitpart r with Some x => x | None => (0, 0%nat, r) end
          else (0, 0%nat, s2)
      | EmptyString => (0, 0%nat, s2)
      end in
    if (icnt + fcnt =? 0)%nat then Raise invalid
    else
      let mantissa := ip * 10 ^ Z.of_nat fcnt + fp in
      match s3 with
      | EmptyString => Ok (Finite (decimal (signed negative mantissa) (- Z.of_nat fcnt)))
      | String c r =>
          if same c "e" || same c "E" then
            let '(eneg, r1) := read_sign r in
            match digitpart r1 with
            | Some (ex, _, EmptyString) =>
                Ok (Finite (decimal (signed negative mantissa)
                                    (signed eneg ex - Z.of_nat fcnt)))
            | _ => Raise invalid
            end
          else Raise invalid
      end.

(** ** [json.loads] *)

Definition json_space (c : ascii) : bool :=
  same c " " || same c "009" || same c "010" || same c "013".

Fixpoint skip_ws (s : string) : string :=
  match s with
  | String c s' => if json_space c then skip_ws s' else s
  | EmptyString => s
  end.

Definition hex_val (c : ascii) : option nat :=
  let n := code c in
  if isdigit_char c then Some (n - 48)%nat
  else if (97 <=? n)%nat && (n <=? 102)%nat then Some (n - 87)%nat
  else if (65 <=? n)%nat && (n <=? 70)%nat then Some (n - 55)%nat
  else None.

Definition simple_escape (c : ascii) : option ascii :=
  if same c "034" then Some "034"%char
  else if same c "\" then Some "\"%char
  else if same c "/" then Some "/"%char
  else if same c "b" then Some "008"%char
  else if same c "f" then Some "012"%char
  else if same c "n" then Some "010"%char
  else if same c "r" then Some "013"%char
  else if same c "t" then Some "009"%char
  else None.

(** The text of a string literal whose opening quote has been read, and
    what follows its closing quote. *)
Fixpoint scanstring (s : string) : option (string * string) :=
  match s with
  | EmptyString => None
  | String c s' =>
      if same c "034" then Some (EmptyString, s')
      else if same c "\" then
        match s' with
        | String e s'' =>
            if same e "u" then
              match s'' with
              | String h1 (String h2 (String h3 (String h4 rest))) =>
                  match hex_val h1, hex_val h2, hex_val h3, hex_val h4 with
                  | Some a, Some b, Some c, Some d =>
                      let n := (((a * 16 + b) * 16 + c) * 16 + d)%nat in
                      if (n <? 256)%nat then
                        match scanstring rest with
                        | Some (t, r) => Some (String (ascii_of_nat n) t, r)
                        | None => None
                        end
                      else None
                  | _, _, _, _ => None
                  end
              | _ => None
              end
            else
              match simple_escape e with
              | Some ch =>
                  match scanstring s'' with
                  | Some (t, r) => Some (String ch t, r)
                  | None => None
                  end
              | None => None
              end
        | EmptyString => None
        end
      else if (code c <? 32)%nat then None
      else
        match scanstring s' with
        | Some (t, r) => Some (String c t, r)
        | None => None
        end
  end.

(** A number literal: an optional minus, an integer part without a
    leading zero, an optional fraction, an optional exponent. The value
    is an [int] when neither fraction nor exponent is present, else a
    [float]. A fraction or exponent without digits is left unread. *)
Definition scan_number (s : string) : option (value * string) :=
  let '(negative, s1) :=
    match s with
    | String c r => if same c "-" then (true, r) else (false, s)
    | EmptyString => (false, s)
    end in
  match s1 with
  | String c r =>
      match digit c with
      | None => None
      | Some d =>
          let '(ip, _, s2) := if d =? 0 then (0, 1%nat, r) else read_digits d 1 r in
          let '(fp, fcnt, s3) :=
            match s2 with
            | String p r2 =>
                if same p "." then
                  match read_digits 0 0 r2 with
                  | (_, O, _) => (0, 0%nat, s2)
                  | x => x
                  end
                else (0, 0%nat, s2)
            | EmptyString => (0, 0%nat, s2)
            end in
          let '(ex, ecnt, s4) :=
            match s3 with
            | String e r3 =>
                if same e "e" || same e "E" then
                  let '(eneg, r4) := read_sign r3 in
                  match read_digits 0 0 r4 with
                  | (_, O, _) => (0, 0%nat, s3)
                  | (x, n, r5) => (signed eneg x, n, r5)
                  end
                else (0, 0%nat, s3)
            | EmptyString => (0, 0%nat, s3)
            end in
          if (fcnt + ecnt =? 0)%nat then Some (VInt (signed negative ip), s4)
          else
            Some (VFloat (Finite (decimal (signed negative (ip * 10 ^ Z.of_nat fcnt + fp))
                                          (ex - Z.of_nat fcnt))), s4)
      end
  | EmptyString => None
  end.

Definition keyword (word : string) (v : value) (s : string) : option (value * string) :=
  if String.prefix word s then Some (v, drop (String.length word) s) else None.

Definition scan_atom (s : string) : option (value * string) :=
  match scan_number s with
  | Some r => Some r
  | None =>
      match keyword "null" VNone s, keyword "true" (VBool true) s,
            keyword "false" (VBool false) s with
      | Some r, _, _ | _, Some r, _ | _, _, Some r => Some r
      | None, None, None =>
          match keyword "NaN" (VFloat NaN) s, keyword "Infinity" (VFloat (Inf false)) s,
                keyword "-Infinity" (VFloat (Inf true)) s with
          | Some r, _, _ | _, Some r, _ | _, _, Some r => Some r
          | None, None, None => None
          end
      end
  end.

(** [dict(pairs)]: a repeated key keeps its first position and its last value. *)
Fixpoint dict_set (k : string) (v : value) (d : list (string * value)) : list (string * value) :=
  match d with
  | [] => [(k, v)]
  | (k', v') :: d' => if String.eqb k k' then (k, v) :: d' else (k', v') :: dict_set k v d'
  end.

(** One JSON value at the head of [s]. [fuel] bounds the number of
    values and separators read; [2 * length s + 2] is enough. *)
Fixpoint scan_once (fuel : nat) (s : string) : option (value * string) :=
  match fuel with
  | O => None
  | S n =>
      match s with
      | EmptyString => None
      | String c s' =>
          if same c "034" then
            match scanstring s' with
            | Some (t, r) => Some (VStr t, r)
            | None => None
            end
          else if same c "[" then
            match skip_ws s' with
            | String c1 r as s1 => if same c1 "]" then Some (VList [], r) else scan_items n [] s1
            | EmptyString => None
            end
          else if same c "{" then
            match skip_ws s' with
            | String c1 r as s1 => if same c1 "}" then Some (VDict [], r) else scan_members n [] s1
            | EmptyString => None
            end
          else scan_atom s
      end
  end
with scan_items (fuel : nat) (acc : list value) (s : string) : option (value * string) :=
  match fuel with
  | O => None
  | S n =>
      match scan_once n s with
      | Some (v, r) =>
          match skip_ws r with
          | String c r1 =>
              if same c "]" then Some (VList (List.rev (v :: acc)), r1)
              else if same c "," then scan_items n (v :: acc) (skip_ws r1)
              else None
          | EmptyString => None
          end
      | None => None
      end
  end
with scan_members (fuel : nat) (acc : list (string * value)) (s : string) : option (value * string) :=
  match fuel with
  | O => None
  | S n =>
      match s with
      | String q s1 =>
          if same q "034" then
            match scanstring s1 with
            | Some (k, r) =>
                match skip_ws r with
                | String colon r1 =>
                    if same colon ":" then
                      match scan_once n (skip_ws r1) with
                      | Some (v, r2) =>
                          match skip_ws r2 with
                          | String c r3 =>
                              if same c "}" then Some (VDict (dict_set k v acc), r3)
                              else if same c "," then scan_members n (dict_set k v acc) (skip_ws r3)
                              else None
                          | EmptyString => None
                          end
                      | None => None
                      end
                    else None
                | EmptyString => None
                end
            | None => None
            end
          else None
      | EmptyString => None
      end
  end.

Definition loads (s : string) : exc value :=
  let invalid := Exn JSONDecodeError "JSONDecodeError" in
  match scan_once (2 * String.length s + 2) (skip_ws s) with
  | Some (v, rest) =>
      match skip_ws rest with
      | EmptyString => Ok v
      | _ => Raise invalid
      end
  | None => Raise invalid
  end.

End CPython.

Definition cpython : Builtins := {|
  py_str := CPython.str;
  py_float := CPython.float_of;
  json_loads := CPython.loads;
  json_dumps := fun v => Ok (CPython.dumps v);
|}.


(* ===================================================================== *)
(** * agent/tools/sqlite_tool.py *)
(* ===================================================================== *)

Module sqlite_tool.
Import Text.

Record SQLResult : Type := mkSQLResult {
  columns : list string;
  rows : list (list value);
  error : option string;
}.

(** What the SQLite engine does with a query: the column names and the
    rows it yields, or the text of the exception it raises. *)
Inductive StoreAnswer : Type :=
  | Fetched (names : list string) (tuples : list (list value))
  | StoreError (text : string).

(** [SQLiteTool.execute]: empty and oversized queries are rejected
    before reaching the store; at most 500 rows are fetched; an
    exception becomes an error result carrying its first 200 characters. *)
Definition execute (store : string -> StoreAnswer) (query : string) : SQLResult :=
  if negb (nonempty query) || negb (nonempty (strip query)) then
    mkSQLResult [] [] (Some "empty_query")
  else
    let query := strip query in
    if (5000 <? String.length query)%nat then
      mkSQLResult [] [] (Some "query_too_long")
    else
      match store query with
      | Fetched names tuples => mkSQLResult names (firstn 500 tuples) None
      | StoreError text => mkSQLResult [] [] (Some (take 200 text))
      end.

(** The tables and views that [schema] reports. *)
Definition relevant_tables : list string :=
  [ "Orders"; "Products"; "Customers"; "Categories"; "Suppliers";
    "Employees"; "Shippers"; "Regions"; "Territories";
    "orders"; "products"; "customers"; "order_items" ].

(** The definition reported for the view [order_items], whatever the
    store holds. *)
Definition order_items_sql : string :=
  "CREATE VIEW order_items AS SELECT OrderID, ProductID, UnitPrice, Quantity, Discount FROM [Order Details]".

(** The loop over [all_objects]; a NULL definition reads as the empty
    text. *)
Definition main_tables (objects : list (string * option string)) : list (string * string) :=
  List.map
    (fun obj =>
       if String.eqb (fst obj) "order_items" then (fst obj, order_items_sql)
       else (fst obj, default EmptyString (snd obj)))
    (List.filter (fun obj => existsb (String.eqb (fst obj)) relevant_tables) objects).

(** [SQLiteTool.schema]. The tool's state is its cache; [master] is what
    the store answers to the query on [sqlite_master]: the names and
    definitions (NULL as [None]) of its tables and views, or an
    exception. *)
Definition schema (master : exc (list (string * option string)))
    (_schema_cache : option (list (string * string)))
    : list (string * string) * option (list (string * string)) :=
  match _schema_cache with
  | Some cached => (cached, _schema_cache)
  | None =>
      match master with
      | Ok objects => (main_tables objects, Some (main_tables objects))
      | Raise _ => ([], None)
      end
  end.

End sqlite_tool.

(* ===================================================================== *)
(** * agent/rag/retrieval.py *)
(* ===================================================================== *)

Module retrieval.
Import Text.

(** A retrieved fragment, the dict [{"id", "content", "score"}]. *)
Record Doc : Type := mkDoc {
  doc_id : string;
  doc_content : string;
  doc_score : Q;
}.

(** [Retriever.search]. [ranked] is the TF-IDF collaborator: the corpus
    chunks in descending order of cosine similarity to the query, or an
    exception. The search keeps the [top_k] best whose score exceeds
    0.01, caps their content at 500 characters, and answers an empty
    list to a blank query or on any failure. *)
Definition search (ranked : string -> exc (list Doc)) (query : string) (top_k : nat) : list Doc :=
  if negb (nonempty (strip query)) then []
  else
    match ranked query with
    | Ok chunks =>
        List.map (fun d => mkDoc (doc_id d) (take 500 (doc_content d)) (doc_score d))
                 (List.filter (fun d => if Qlt_le_dec (1 # 100) (doc_score d) then true else false)
                              (firstn top_k chunks))
    | Raise _ => []
    end.

(** A chunk of the corpus, the dict [{"id", "content", "source"}]. *)
Record Chunk : Type := mkChunk {
  chunk_id : string;
  chunk_content : string;
  chunk_source : string;
}.

(** The separator of paragraphs, two line feeds. *)
Definition blank_line : string := String "010" (String "010" EmptyString).

(** [[p.strip() for p in text.split(blank_line) if p.strip()]] *)
Definition paragraphs (text : string) : list string :=
  List.map Text.strip
    (List.filter (fun p => nonempty (Text.strip p)) (Text.split text blank_line)).

(** The dict appended to [docs] for the chunk numbered [chunk_idx]. *)
Definition emit (fname : string) (chunk_idx : nat) (chunk : string) : Chunk :=
  mkChunk (fname ++ "::chunk" ++ CPython.dec (Z.of_nat chunk_idx)) (Text.strip chunk) fname.

(** The loop over the paragraphs of one file and the flush after it:
    [chunk_idx] and [chunk] are the loop variables, the result is what
    is appended to [docs]. *)
Fixpoint chunk_paragraphs (fname : string) (chunk_size : nat) (chunk_idx : nat) (chunk : string)
    (ps : list string) : list Chunk :=
  match ps with
  | [] => if nonempty chunk then [emit fname chunk_idx chunk] else []
  | p :: ps' =>
      if (String.length chunk + String.length p + 1 <=? chunk_size)%nat then
        chunk_paragraphs fname chunk_size chunk_idx
          (if nonempty chunk then chunk ++ " " ++ p else p) ps'
      else if nonempty chunk then
        emit fname chunk_idx chunk :: chunk_paragraphs fname chunk_size (S chunk_idx) p ps'
      else
        chunk_paragraphs fname chunk_size chunk_idx p ps'
  end.

(** [fname.lower().endswith((".txt", ".md"))] *)
Definition is_text_file (fname : string) : bool :=
  Text.endswith (Text.lower fname) ".txt" || Text.endswith (Text.lower fname) ".md".

(** [Retriever._load_docs]. [files] is the directory as the loop sees
    it: the regular files of [docs_path] in the order of
    [sorted(os.listdir(docs_path))], each with its decoded text. *)
Definition _load_docs (files : list (string * string)) (chunk_size : nat) : list Chunk :=
  List.flat_map
    (fun f => chunk_paragraphs (fst f) chunk_size 0 EmptyString (paragraphs (snd f)))
    (List.filter (fun f => is_text_file (fst f)) files).

End retrieval.

(* ===================================================================== *)
(** * agent/dspy_signatures.py *)
(* ===================================================================== *)

Module dspy_signatures.
Import Text sqlite_tool retrieval.

(** [getattr(result, name, default)] on a model answer whose field may
    be missing. *)
Definition getattr {A} (field : option A) (default : A) : A :=
  match field with Some x => x | None => default end.

(** ** RouterModule *)

Definition routes : list string := ["rag"; "sql"; "hybrid"].

Definition mem (x : string) (l : list string) : bool := existsb (String.eqb x) l.

(** [RouterModule.forward]; [classified] is the outcome of
    [self.classify(question=question)], reduced to its [route] field. *)
Definition RouterModule_forward (classified : exc (option string)) : exc string :=
  result ← classified;
  let route := strip (lower (getattr result "hybrid")) in
  let route := if negb (mem route routes) then "hybrid" else route in
  mret route.

(** ** NL2SQLModule *)

(** The [replacements] dict, in insertion order (the order [items()] yields). *)
Definition replacements : list (string * string) :=
  [ (dquote ++ "Order Details" ++ dquote, "order_items");
    ("Order_Items", "order_items");
    ("CustomerName", "CompanyName") ].

(** [for pattern, replacement in replacements.items(): sql = re.sub(...)] *)
Definition _clean_sql (sql : string) : string :=
  fold_left (fun sql pr => re_sub pr.1 pr.2 sql) replacements sql.

(** [NL2SQLModule.forward]; [generated] is the outcome of
    [self.generate(...)], reduced to its [sql] field. *)
Definition NL2SQLModule_forward (generated : exc (option string)) : exc string :=
  result ← generated;
  let sql := strip (getattr result EmptyString) in
  let sql := if nonempty sql then _clean_sql sql else sql in
  mret (if nonempty sql then sql else "SELECT 1 as error").

(** ** SynthesizerModule *)

(** The fields of the model's synthesis answer; each may be missing. *)
Record Synthesis : Type := mkSynthesis {
  answer_text : option string;
  explanation_text : option string;
  citations_text : option string;
}.

Record Prediction : Type := mkPrediction {
  final_answer : value;
  confidence : Q;
  explanation : string;
  citations : value;
}.

(** [sql_result and hasattr(sql_result, 'rows') and sql_result.rows] *)
Definition has_rows (sql_result : option SQLResult) : bool :=
  match sql_result with
  | Some r => some_item (rows r)
  | None => false
  end.

(** [_generate_basic_citations]; [list(set(citations))] is the list of
    the elements of a finite set, in the order the set yields them. *)
Definition _generate_basic_citations
    (sql_result : option SQLResult) (retrieved_docs : list Doc) : list string :=
  let citations :=
    if some_item retrieved_docs
    then List.filter nonempty (List.map doc_id retrieved_docs)
    else [] in
  let citations :=
    if has_rows sql_result
    then (citations ++ ["Orders"; "Order Details"; "Products"; "Customers"])%list
    else citations in
  elements (list_to_set citations : gset string).

(** [_calculate_confidence] *)
Definition _calculate_confidence
    (sql_result : option SQLResult) (retrieved_docs : list Doc) (repair_count : Z) : Q :=
  let confidence := (5 # 10)%Q in
  let confidence := if has_rows sql_result then (confidence + (3 # 10))%Q else confidence in
  let confidence := if some_item retrieved_docs then (confidence + (2 # 10))%Q else confidence in
  let confidence := (confidence * (9 # 10) ^ repair_count)%Q in
  py_max (1 # 10) (py_min 1 confidence).

(** [_get_format_default] *)
Definition _get_format_default (format_hint : string) : value :=
  if String.eqb format_hint "int" then VInt 0
  else if String.eqb format_hint "float" then VFloat (Finite 0)
  else if String.eqb format_hint "list" then VList []
  else if String.eqb format_hint "object" then VDict []
  else if startswith format_hint "list[" then VList []
  else if startswith format_hint "{" then VDict []
  else VStr "Error".

Section WithBuiltins.
Context `{B : Builtins}.

(** The [try] block of [_format_answer]. *)
Definition _format_answer_try (answer : value) (format_hint : string) : exc value :=
  let answer_str := strip (py_str answer) in
  if String.eqb format_hint "int" then
    f ← py_float answer_str; n ← py_int f; mret (VInt n)
  else if String.eqb format_hint "float" then
    f ← py_float answer_str; mret (VFloat (py_round2 f))
  else if startswith format_hint "list[" || String.eqb format_hint "list" then
    if is_list answer then mret answer
    else catch (json_loads answer_str) (mret (VList [VStr answer_str]))
  else if startswith format_hint "{" || String.eqb format_hint "object" then
    if is_dict answer then mret answer
    else catch (json_loads answer_str) (mret (VDict [("result", VStr answer_str)]))
  else mret (VStr answer_str).

(** [_format_answer]: any exception of the block yields the default. *)
Definition _format_answer (answer : value) (format_hint : string) : exc value :=
  catch (_format_answer_try answer format_hint) (mret (_get_format_default format_hint)).

(** [SynthesizerModule.forward]; [synthesized] is the outcome of
    [self.synthesize(...)], the assembly of its [data] argument
    included. *)
Definition SynthesizerModule_forward
    (synthesized : exc Synthesis) (format_hint : string)
    (sql_result : option SQLResult) (retrieved_docs : list Doc) (repair_count : Z)
    : exc Prediction :=
  result ← synthesized;
  let final_answer :=
    match answer_text result with
    | Some text => VStr text
    | None => _get_format_default format_hint
    end in
  let explanation := take 200 (getattr (explanation_text result) "Generated from available data") in
  let citations_str := getattr (citations_text result) "[]" in
  citations ← catch (if nonempty citations_str then json_loads citations_str else mret (VList []))
                    (mret (VList (VStr <$> _generate_basic_citations sql_result retrieved_docs)));
  let confidence := _calculate_confidence sql_result retrieved_docs repair_count in
  formatted ← _format_answer final_answer format_hint;
  mret (mkPrediction formatted confidence explanation citations).

(** ** PlannerModule *)

(** [PlannerModule.forward]; [extracted] is the outcome of
    [self.extract(...)], reduced to its [constraints] field. *)
Definition PlannerModule_forward (extracted : exc (option string)) : exc string :=
  result ← extracted;
  let constraints_str := getattr result "{}" in
  constraints ← catch (json_loads constraints_str) (mret (VDict []));
  json_dumps constraints.

End WithBuiltins.

End dspy_signatures.

(* ===================================================================== *)
(** * agent/graph_hybrid.py *)
(* ===================================================================== *)

Module graph_hybrid.
Import Text sqlite_tool retrieval.
Import dspy_signatures (Synthesis, getattr, has_rows).

(** ** The run state *)

Record AgentState : Type := mkAgentState {
  question : string;
  format_hint : string;
  route : string;
  retrieved_docs : list Doc;
  extracted_constraints : value;
  sql : string;
  sql_result : option SQLResult;
  final_answer : value;
  confidence : Q;
  explanation : string;
  citations : value;
  error : option string;
  repair_count : Z;
}.

(** [state[key] = v], one function per key that a node assigns. *)
Definition set_route (v : string) (s : AgentState) : AgentState :=
  mkAgentState (question s) (format_hint s) v (retrieved_docs s) (extracted_constraints s)
    (sql s) (sql_result s) (final_answer s) (confidence s) (explanation s) (citations s)
    (error s) (repair_count s).
Definition set_retrieved_docs (v : list Doc) (s : AgentState) : AgentState :=
  mkAgentState (question s) (format_hint s) (route s) v (extracted_constraints s)
    (sql s) (sql_result s) (final_answer s) (confidence s) (explanation s) (citations s)
    (error s) (repair_count s).
Definition set_extracted_constraints (v : value) (s : AgentState) : AgentState :=
  mkAgentState (question s) (format_hint s) (route s) (retrieved_docs s) v
    (sql s) (sql_result s) (final_answer s) (confidence s) (explanation s) (citations s)
    (error s) (repair_count s).
Definition set_sql (v : string) (s : AgentState) : AgentState :=
  mkAgentState (question s) (format_hint s) (route s) (retrieved_docs s) (extracted_constraints s)
    v (sql_result s) (final_answer s) (confidence s) (explanation s) (citations s)
    (error s) (repair_count s).
Definition set_sql_result (v : option SQLResult) (s : AgentState) : AgentState :=
  mkAgentState (question s) (format_hint s) (route s) (retrieved_docs s) (extracted_constraints s)
    (sql s) v (final_answer s) (confidence s) (explanation s) (citations s)
    (error s) (repair_count s).
Definition set_final_answer (v : value) (s : AgentState) : AgentState :=
  mkAgentState (question s) (format_hint s) (route s) (retrieved_docs s) (extracted_constraints s)
    (sql s) (sql_result s) v (confidence s) (explanation s) (citations s)
    (error s) (repair_count s).
Definition set_confidence (v : Q) (s : AgentState) : AgentState :=
  mkAgentState (question s) (format_hint s) (route s) (retrieved_docs s) (extracted_constraints s)
    (sql s) (sql_result s) (final_answer s) v (explanation s) (citations s)
    (error s) (repair_count s).
Definition set_explanation (v : string) (s : AgentState) : AgentState :=
  mkAgentState (question s) (format_hint s) (route s) (retrieved_docs s) (extracted_constraints s)
    (sql s) (sql_result s) (final_answer s) (confidence s) v (citations s)
    (error s) (repair_count s).
Definition set_citations (v : value) (s : AgentState) : AgentState :=
  mkAgentState (question s) (format_hint s) (route s) (retrieved_docs s) (extracted_constraints s)
    (sql s) (sql_result s) (final_answer s) (confidence s) (explanation s) v
    (error s) (repair_count s).
Definition set_error (v : option string) (s : AgentState) : AgentState :=
  mkAgentState (question s) (format_hint s) (route s) (retrieved_docs s) (extracted_constraints s)
    (sql s) (sql_result s) (final_answer s) (confidence s) (explanation s) (citations s)
    v (repair_count s).
Definition set_repair_count (v : Z) (s : AgentState) : AgentState :=
  mkAgentState (question s) (format_hint s) (route s) (retrieved_docs s) (extracted_constraints s)
    (sql s) (sql_result s) (final_answer s) (confidence s) (explanation s) (citations s)
    (error s) v.

(** ** The collaborators *)

(** A script of what the collaborators answer. The first argument of
    each field is the number of graph steps taken before the call, so
    that the same request may be answered differently at each visit.
    The trace sink is write-only and swallows its own failures; it is
    left out. *)
Record World : Type := mkWorld {
  classify : nat -> string -> exc (option string);
  extract : nat -> string -> exc (option string);
  generate : nat -> string -> exc (option string);
  synthesize : nat -> string -> string -> exc Synthesis;
  ranked : nat -> string -> exc (list Doc);
  store : nat -> string -> StoreAnswer;
}.

(** ** Format validation and error classification *)

(** [type(x).__name__] *)
Definition type_name (x : value) : string :=
  match x with
  | VNone => "NoneType"
  | VBool _ => "bool"
  | VInt _ => "int"
  | VFloat _ => "float"
  | VStr _ => "str"
  | VList _ => "list"
  | VDict _ => "dict"
  end.

(** Truth value of an optional text: present and non-empty. *)
Definition truthy (t : option string) : bool :=
  match t with Some x => nonempty x | None => false end.

(** [_detect_sql_error]; the [error_types] dict is scanned in insertion
    order. *)
Definition error_types : list (string * string) :=
  [ ("syntax error", "sql_syntax_error");
    ("no such table", "sql_table_error");
    ("no such column", "sql_column_error") ].

Definition _detect_sql_error (state : AgentState) : option string :=
  match sql_result state with
  | None => None
  | Some r =>
      match sqlite_tool.error r with
      | None => None
      | Some text =>
          if negb (nonempty text) then None
          else
            let error_lower := lower text in
            match List.find (fun et => contains error_lower et.1) error_types with
            | Some (_, error_type) => Some (error_type ++ ": " ++ text)
            | None => Some ("sql_execution_error: " ++ text)
            end
      end
  end.

(** [after_repair]: [None] has no [startswith]. *)
Definition no_startswith : exn :=
  Exn AttributeError "'NoneType' object has no attribute 'startswith'".

Section WithBuiltins.
Context `{B : Builtins}.

(** [_is_float] *)
Definition _is_float (x : string) : bool :=
  match catch_only [ValueError; TypeError] (_ ← py_float x; mret true) (mret false) with
  | Ok b => b
  | Raise _ => false
  end.

(** [_validate_format] *)
Definition _validate_format (answer : value) (format_hint : string) : bool :=
  if String.eqb format_hint "int" then
    is_int answer
    || ((is_str answer || is_float answer)
        && isdigit (replace (replace (py_str answer) "." EmptyString) "-" EmptyString))
  else if String.eqb format_hint "float" then
    (is_int answer || is_float answer)
    || match answer with VStr x => _is_float x | _ => false end
  else if String.eqb format_hint "list" then is_list answer
  else if String.eqb format_hint "object" then is_dict answer
  else if startswith format_hint "list[" || String.eqb format_hint "list" then is_list answer
  else if startswith format_hint "{" || String.eqb format_hint "object" then is_dict answer
  else true.

(** [_detect_format_error] *)
Definition _detect_format_error (state : AgentState) : option string :=
  if negb (_validate_format (final_answer state) (format_hint state)) then
    Some ("format_validation_failed: expected " ++ format_hint state
          ++ ", got " ++ type_name (final_answer state))
  else None.

(** ** The nodes *)

Section Nodes.
Variable w : World.
Variable t : nat.

Definition router_node (state : AgentState) : exc AgentState :=
  result ← dspy_signatures.RouterModule_forward (classify w t (question state));
  mret (set_route result state).

Definition retriever_node (state : AgentState) : exc AgentState :=
  let docs := search (ranked w t) (question state) 3 in
  mret (set_retrieved_docs (if some_item docs then docs else []) state).

Definition planner_node (state : AgentState) : exc AgentState :=
  constraints_str ← dspy_signatures.PlannerModule_forward (extract w t (question state));
  constraints ← catch (json_loads constraints_str) (mret (VDict []));
  mret (set_extracted_constraints constraints state).

(** The schema text and the constraints text only feed the prompt;
    [json.dumps] of the constraints is kept because it may raise. *)
Definition nl2sql_node (state : AgentState) : exc AgentState :=
  _ ← json_dumps (extracted_constraints state);
  result ← dspy_signatures.NL2SQLModule_forward (generate w t (question state));
  mret (set_sql result state).

Definition executor_node (state : AgentState) : exc AgentState :=
  let result := execute (store w t) (sql state) in
  let state := set_sql_result (Some result) state in
  mret (if truthy (sqlite_tool.error result)
        then set_error (sqlite_tool.error result) state
        else set_error None state).

Definition synthesizer_node (state : AgentState) : exc AgentState :=
  result ← dspy_signatures.SynthesizerModule_forward
             (synthesize w t (question state) (format_hint state))
             (format_hint state) (sql_result state) (retrieved_docs state)
             (repair_count state);
  let state := set_final_answer (dspy_signatures.final_answer result) state in
  let state := set_confidence (dspy_signatures.confidence result) state in
  let state := set_explanation (dspy_signatures.explanation result) state in
  let state := set_citations (dspy_signatures.citations result) state in
  mret state.

End Nodes.

(** The test [state["repair_count"] > 2] that guards the forced
    acceptance in [repair_node]. *)
Definition hard_stop (state : AgentState) : bool := 2 <? repair_count state.

Definition repair_node (state : AgentState) : exc AgentState :=
  let state := set_repair_count (repair_count state + 1) state in
  if hard_stop state then
    let state := set_confidence (py_max (1 # 10) (confidence state * (3 # 10))%Q) state in
    mret (set_error None state)
  else
    let sql_error := _detect_sql_error state in
    let format_error := _detect_format_error state in
    if negb (truthy sql_error) && negb (truthy format_error) then
      let state := set_error None state in
      mret (set_confidence
              (py_max (1 # 10) (confidence state * (9 # 10) ^ repair_count state)%Q) state)
    else mret state.

(** ** The graph *)

Inductive Node : Type :=
  | router | retriever | planner | nl2sql | executor | synthesizer | repair | END.

Definition should_retrieve (state : AgentState) : Node :=
  if dspy_signatures.mem (route state) ["rag"; "hybrid"] then retriever else planner.

Definition should_plan (state : AgentState) : Node :=
  if dspy_signatures.mem (route state) ["sql"; "hybrid"] then planner else synthesizer.

Definition should_execute_sql (state : AgentState) : Node :=
  if dspy_signatures.mem (route state) ["sql"; "hybrid"] then nl2sql else synthesizer.

Definition should_repair (state : AgentState) : Node :=
  if 2 <=? repair_count state then END
  else
    let sql_error := _detect_sql_error state in
    let format_error := _detect_format_error state in
    if truthy sql_error || truthy format_error then repair else END.

Definition after_repair (state : AgentState) : exc Node :=
  match error state with
  | None => Raise no_startswith
  | Some error =>
      if startswith error "sql_" then mret nl2sql
      else if startswith error "format_" || startswith error "missing_" then mret synthesizer
      else mret synthesizer
  end.

(** [build_graph]: the function each node name is bound to, and the
    edge leaving it. *)
Definition node_fn (w : World) (t : nat) (n : Node) : AgentState -> exc AgentState :=
  match n with
  | router => router_node w t
  | retriever => retriever_node w t
  | planner => planner_node w t
  | nl2sql => nl2sql_node w t
  | executor => executor_node w t
  | synthesizer => synthesizer_node w t
  | repair => repair_node
  | END => mret
  end.

Definition edge (n : Node) (state : AgentState) : exc Node :=
  match n with
  | router => mret (should_retrieve state)
  | retriever => mret (should_plan state)
  | planner => mret (should_execute_sql state)
  | nl2sql => mret executor
  | executor => mret synthesizer
  | synthesizer => mret (should_repair state)
  | repair => after_repair state
  | END => mret END
  end.

(** One step of the compiled graph: run the node, then follow its edge. *)
Definition step (w : World) (t : nat) (n : Node) (state : AgentState)
    : exc (Node * AgentState) :=
  state' ← node_fn w t n state;
  n' ← edge n state';
  mret (n', state').

(** How a run ends: at [END] with the final state, by an exception
    leaving the graph, or still running when the step budget is spent. *)
Inductive Outcome : Type :=
  | Finished (state : AgentState)
  | Raised (e : exn)
  | Running (n : Node) (state : AgentState).

(** The run from node [n], entry point of step number [t]: the nodes
    executed, each with the state it received, and the outcome. *)
Fixpoint run (fuel : nat) (w : World) (t : nat) (n : Node) (state : AgentState)
    : list (Node * AgentState) * Outcome :=
  match n with
  | END => ([], Finished state)
  | _ =>
      match fuel with
      | O => ([], Running n state)
      | S fuel' =>
          match step w t n state with
          | Raise e => ([(n, state)], Raised e)
          | Ok (n', state') =>
              let '(visited, outcome) := run fuel' w (S t) n' state' in
              ((n, state) :: visited, outcome)
          end
      end
  end.

(** [graph.invoke(initial_state)]; the entry point is [router]. *)
Definition invoke (fuel : nat) (w : World) (initial_state : AgentState)
    : list (Node * AgentState) * Outcome :=
  run fuel w 0 router initial_state.

End WithBuiltins.

End graph_hybrid.

(* ===================================================================== *)
(** * run_agent_hybrid.py *)
(* ===================================================================== *)

Module run_agent_hybrid.
Import Text graph_hybrid.
Import dspy_signatures (getattr).

(** One record of the batch input; a key may be missing. *)
Record Item : Type := mkItem {
  item_id : option string;
  item_question : option string;
  item_format_hint : option string;
}.

(** One record of the batch output. *)
Record Answer : Type := mkAnswer {
  out_id : string;
  out_final_answer : value;
  out_sql : string;
  out_confidence : Q;
  out_explanation : string;
  out_citations : value;
}.

(** [get_fallback_answer] *)
Definition get_fallback_answer (format_hint : string) : value :=
  if String.eqb format_hint "int" then VInt 0
  else if String.eqb format_hint "float" then VFloat (Finite 0)
  else if String.eqb format_hint "list" then VList []
  else if String.eqb format_hint "object" then VDict []
  else if startswith format_hint "list[" then VList []
  else if startswith format_hint "{" then VDict []
  else VStr "Error: Unable to generate answer".

(** The [initial_state] dict of [process_question]. *)
Definition initial_state (question format_hint : string) : AgentState :=
  mkAgentState question format_hint EmptyString [] (VDict []) EmptyString None VNone 0
               EmptyString (VList []) None 0.

(** The default [recursion_limit] of the graph runtime: a run that
    takes more steps is aborted with [GraphRecursionError]. *)
Definition recursion_limit : nat := 25.

Definition recursion_error : exn :=
  Exn (OtherError "GraphRecursionError")
      "Recursion limit of 25 reached without hitting a stop condition.".

Section WithBuiltins.
Context `{B : Builtins}.

(** [format_answer_for_output] *)
Definition format_answer_for_output (answer : value) (format_hint : string) : value :=
  let body : exc value :=
    if String.eqb format_hint "int" then
      f ← py_float (py_str answer); n ← py_int f; mret (VInt n)
    else if String.eqb format_hint "float" then
      f ← py_float (py_str answer); mret (VFloat (py_round2 f))
    else if startswith format_hint "list[" || String.eqb format_hint "list" then
      if is_list answer then mret answer
      else if is_str answer then json_loads (py_str answer) else mret (VList [answer])
    else if startswith format_hint "{" || String.eqb format_hint "object" then
      if is_dict answer then mret answer
      else if is_str answer then json_loads (py_str answer)
           else mret (VDict [("result", answer)])
    else mret answer in
  match body with
  | Ok v => v
  | Raise _ => get_fallback_answer format_hint
  end.

(** The explanation as the output record carries it. *)
Definition shorten (explanation : string) : string :=
  if (200 <? String.length explanation)%nat then
    let sentences := split explanation ". " in
    let explanation := join ". " (firstn 2 sentences) in
    if negb (endswith explanation ".") then explanation ++ "." else explanation
  else explanation.

(** The record written when the run raises. *)
Definition fallback_record (question_id format_hint : string) (e : exn) : Answer :=
  mkAnswer question_id (get_fallback_answer format_hint) EmptyString (1 # 10)
           ("Error processing question: " ++ take 100 (exn_msg e)) (VList []).

(** [process_question] *)
Definition process_question (w : World) (item : Item) : Answer :=
  let question_id := getattr (item_id item) EmptyString in
  let question := getattr (item_question item) EmptyString in
  let format_hint := getattr (item_format_hint item) "str" in
  match (invoke recursion_limit w (initial_state question format_hint)).2 with
  | Finished result_state =>
      mkAnswer question_id
               (format_answer_for_output (final_answer result_state) format_hint)
               (sql result_state)
               (round2 (confidence result_state))
               (shorten (explanation result_state))
               (citations result_state)
  | Raised e => fallback_record question_id format_hint e
  | Running _ _ => fallback_record question_id format_hint recursion_error
  end.

End WithBuiltins.

End run_agent_hybrid.

(* ===================================================================== *)
(** * Vocabulary of the properties *)
(* ===================================================================== *)

Import sqlite_tool retrieval graph_hybrid run_agent_hybrid.
Import dspy_signatures (Synthesis, mkSynthesis, Prediction, has_rows, _clean_sql,
  _generate_basic_citations, _calculate_confidence, _get_format_default,
  _format_answer_try, _format_answer, SynthesizerModule_forward).



(** The invariant of the confidence field. *)
Definition in_range (c : Q) : Prop := (1 # 10 <= c)%Q /\ (c <= 1)%Q.

(** The two families of format hints that ask for a container. *)
Definition list_hint (format_hint : string) : bool :=
  Text.startswith format_hint "list[" || String.eqb format_hint "list".
Definition object_hint (format_hint : string) : bool :=
  Text.startswith format_hint "{" || String.eqb format_hint "object".

(** What answer coercion yields, hint by hint. *)
Inductive Coerced `{B : Builtins} (answer : value) (format_hint : string) : value -> Prop :=
  | coerced_int f n :
      format_hint = "int" ->
      py_float (Text.strip (py_str answer)) = Ok f -> py_int f = Ok n ->
      Coerced answer format_hint (VInt n)
  | coerced_int_default e :
      format_hint = "int" ->
      (f ← py_float (Text.strip (py_str answer)); py_int f) = Raise e ->
      Coerced answer format_hint (VInt 0)
  | coerced_float f :
      format_hint = "float" ->
      py_float (Text.strip (py_str answer)) = Ok f ->
      Coerced answer format_hint (VFloat (py_round2 f))
  | coerced_float_default e :
      format_hint = "float" ->
      py_float (Text.strip (py_str answer)) = Raise e ->
      Coerced answer format_hint (VFloat (Finite 0))
  | coerced_list_same :
      list_hint format_hint = true -> is_list answer = true ->
      Coerced answer format_hint answer
  | coerced_list_decoded v :
      list_hint format_hint = true -> is_list answer = false ->
      json_loads (Text.strip (py_str answer)) = Ok v ->
      Coerced answer format_hint v
  | coerced_list_wrapped e :
      list_hint format_hint = true -> is_list answer = false ->
      json_loads (Text.strip (py_str answer)) = Raise e ->
      Coerced answer format_hint (VList [VStr (Text.strip (py_str answer))])
  | coerced_object_same :
      object_hint format_hint = true -> is_dict answer = true ->
      Coerced answer format_hint answer
  | coerced_object_decoded v :
      object_hint format_hint = true -> is_dict answer = false ->
      json_loads (Text.strip (py_str answer)) = Ok v ->
      Coerced answer format_hint v
  | coerced_object_wrapped e :
      object_hint format_hint = true -> is_dict answer = false ->
      json_loads (Text.strip (py_str answer)) = Raise e ->
      Coerced answer format_hint (VDict [("result", VStr (Text.strip (py_str answer)))])
  | coerced_text :
      format_hint <> "int" -> format_hint <> "float" ->
      list_hint format_hint = false -> object_hint format_hint = false ->
      Coerced answer format_hint (VStr (Text.strip (py_str answer))).

(** The table names cited for query rows. *)
Definition tables : list string := ["Orders"; "Order Details"; "Products"; "Customers"].

Definition node_eqb (a b : Node) : bool :=
  match a, b with
  | router, router | retriever, retriever | planner, planner | nl2sql, nl2sql
  | executor, executor | synthesizer, synthesizer | repair, repair | END, END => true
  | _, _ => false
  end.

(** How many times node [n] was executed in a run. *)
Definition visits (n : Node) (visited : list (Node * AgentState)) : nat :=
  length (List.filter (fun c => node_eqb c.1 n) visited).

(** The states with which node [n] was entered. *)
Definition entered (n : Node) (visited : list (Node * AgentState)) : list AgentState :=
  List.map snd (List.filter (fun c => node_eqb c.1 n) visited).

(** The run ended, at [END] or by an exception. *)
Definition halted (o : Outcome) : bool :=
  match o with Running _ _ => false | _ => true end.

(** The states a run visits after its first synthesis. *)
Fixpoint after_synthesis (visited : list (Node * AgentState)) : list AgentState :=
  match visited with
  | [] => []
  | (n, _) :: rest => if node_eqb n synthesizer then List.map snd rest else after_synthesis rest
  end.

(** The measure of the repair loop: an upper bound on the steps a run
    still takes from node [n] with [repair_count = rc], and on the
    synthesizer executions among them. *)
Definition rank (n : Node) : Z :=
  match n with
  | router => 6 | retriever => 5 | planner => 4 | nl2sql => 3
  | executor => 2 | synthesizer => 1 | repair => 0 | END => 0
  end.

Definition potential (n : Node) (rc : Z) : Z :=
  match n with
  | END => 0
  | _ => rank n + 4 * (2 - rc)
  end.

Definition budget (n : Node) (rc : Z) : Z :=
  match n with
  | END => 0
  | repair => 2 - rc
  | _ => 3 - rc
  end.

(** The invariant of [repair_count]: between 0 and 2, and below 2 when
    the repair node is about to run. *)
Definition admissible (n : Node) (rc : Z) : Prop :=
  0 <= rc <= 2 /\ (n = repair -> rc < 2).



(** ** Two scripted worlds *)

(** The question is routed to [sql]; every generated query names a column
    the store does not have; the model answers [42] each time. *)
Definition query_error_world : World := mkWorld
  (fun _ _ => Ok (Some "sql"))
  (fun _ _ => Ok (Some "{}"))
  (fun _ _ => Ok (Some "SELECT nope FROM Orders"))
  (fun _ _ _ => Ok (mkSynthesis (Some "42") (Some "Counted the orders.") (Some "[]")))
  (fun _ _ => Ok [])
  (fun _ _ => StoreError "no such column: nope").

Definition query_error_run : list (Node * AgentState) * Outcome :=
  invoke (B:=cpython) recursion_limit query_error_world
         (initial_state "How many orders were placed?" "int").

(** The question is routed to [rag]; one fragment is retrieved; a list is
    asked for and the model answers the bare text [42]. *)
Definition format_error_world : World := mkWorld
  (fun _ _ => Ok (Some "rag"))
  (fun _ _ => Ok (Some "{}"))
  (fun _ _ => Ok (Some "SELECT 1"))
  (fun _ _ _ => Ok (mkSynthesis (Some "42") (Some "From the returns policy.") (Some "[]")))
  (fun _ _ => Ok [mkDoc "policy.md::chunk0" "Returns are accepted within 30 days." (1 # 2)])
  (fun _ _ => Fetched [] []).

Definition format_error_run : list (Node * AgentState) * Outcome :=
  invoke (B:=cpython) recursion_limit format_error_world
         (initial_state "Which products can be returned?" "list").

(** ** Patterns and replacements that cannot interfere *)

(** [c] occurs in [s]. *)
Fixpoint mem_char (c : ascii) (s : string) : bool :=
  match s with
  | EmptyString => false
  | String b s' => if ascii_dec b c then true else mem_char c s'
  end.

(** [q] and [x] differ at a position both have: [q] is no prefix of any
    extension of [x]. *)
Fixpoint clash (q x : string) : bool :=
  match q, x with
  | String a q', String b x' => if ascii_dec a b then clash q' x' else true
  | _, _ => false
  end.

(** Every non-empty suffix of [r] clashes with [q]. *)
Fixpoint suffixes_clash (q r : string) : bool :=
  match r with
  | EmptyString => true
  | String _ r' => clash q r && suffixes_clash q r'
  end.

(** Writing [r] into a text cannot complete an occurrence of [q]: the first
    character of [r] is not in the tail of [q], and no suffix of [r] can
    start an occurrence of [q]. *)
Definition fresh (q r : string) : bool :=
  match q, r with
  | String _ q', String h _ => negb (mem_char h q') && suffixes_clash q r
  | _, _ => false
  end.

#[global] Instance Node_eq_dec : EqDecision Node.
Proof. solve_decision. Defined.

(** ** Vocabulary of the further properties *)

(** The first character of a text is not white space. *)
Definition head_ok (s : string) : bool :=
  match s with
  | EmptyString => false
  | String c _ => negb (Text.isspace c)
  end.

(** The query is rejected before the store is asked. *)
Definition rejected (query : string) : bool :=
  negb (nonempty (Text.strip query)) || (5000 <? String.length (Text.strip query))%nat.

(** ** The invariant of a run *)

(** The routes that involve the query store, and those that involve the
    retriever. *)
Definition sqlish (route : string) : bool := dspy_signatures.mem route ["sql"; "hybrid"].
Definition ragish (route : string) : bool := dspy_signatures.mem route ["rag"; "hybrid"].

(** The [error] field mirrors the query result: the store's message when
    there is a non-empty one, [None] otherwise. *)
Definition error_synced (state : AgentState) : Prop :=
  error state
  = match sql_result state with
    | Some r => if truthy (sqlite_tool.error r) then sqlite_tool.error r else None
    | None => None
    end.

(** One of the two classifiers reports an error. *)
Definition detected `{B : Builtins} (state : AgentState) : bool :=
  truthy (_detect_sql_error state) || truthy (_detect_format_error state).

(** At most [k] fragments, each with a score above 0.01 and at most 500
    characters of content: what [Retriever.search] answers. *)
Definition docs_bounded (k : nat) (docs : list Doc) : Prop :=
  (length docs <= k)%nat
  /\ Forall (fun d => (1 # 100 < doc_score d)%Q /\ (String.length (doc_content d) <= 500)%nat) docs.

(** What [NL2SQLModule.forward] yields: a query that is not blank and in
    which none of the rewritten names occurs. *)
Definition query_ok (sql : string) : Prop :=
  nonempty (Text.strip sql) = true
  /\ Forall (fun pr => Text.contains sql pr.1 = false) dspy_signatures.replacements.

(** What holds of the state with which a run is about to execute node [n]. *)
Definition consistent `{B : Builtins} (n : Node) (state : AgentState) : Prop :=
  admissible n (repair_count state)
  /\ error_synced state
  /\ (String.length (explanation state) <= 200)%nat
  /\ (n = router -> sql_result state = None)
  /\ (n <> router -> In (route state) dspy_signatures.routes)
  /\ (n = planner \/ n = nl2sql \/ n = executor -> sqlish (route state) = true)
  /\ (n = retriever -> ragish (route state) = true)
  /\ (sql_result state <> None -> sqlish (route state) = true)
  /\ (n = repair -> detected state = true)
  /\ (n = END -> 2 <= repair_count state \/ detected state = false)
  /\ docs_bounded 3 (retrieved_docs state)
  /\ (sql state = EmptyString \/ query_ok (sql state))
  /\ (n = executor -> query_ok (sql state)).

(** Closes the conjuncts of [consistent] from the facts at hand. *)
Ltac close_consistent :=
  repeat match goal with |- _ /\ _ => split end;
  try solve [ assumption | lia | reflexivity | intuition (congruence || lia) ].

(** ** The corpus *)

(** A text that [strip] leaves as it is, and that is not empty. *)
Definition tidy (s : string) : Prop := nonempty s = true /\ Text.strip s = s.

(** The id of the chunk numbered [k] of the file [fname]. *)
Definition chunk_name (fname : string) (k : nat) : string :=
  fname ++ "::chunk" ++ CPython.dec (Z.of_nat k).

(** In the loop of [_load_docs], the variable [chunk] is empty or tidy,
    and so is every paragraph still to be read. *)
Definition loop_ok (chunk : string) (ps : list string) : Prop :=
  (chunk = EmptyString \/ tidy chunk) /\ Forall tidy ps.

(** A chunk of the file [fname] is tidy, carries the file name and a
    chunk id, and is within the size limit unless it is one of the
    paragraphs [P] on its own. *)
Definition chunk_ok (fname : string) (chunk_size : nat) (P : list string) (c : Chunk) : Prop :=
  tidy (chunk_content c)
  /\ chunk_source c = fname
  /\ (exists i, chunk_id c = chunk_name fname i)
  /\ ((String.length (chunk_content c) <= chunk_size)%nat \/ In (chunk_content c) P).

(* ===================================================================== *)
(** * The code on small inputs *)
(* ===================================================================== *)

Example clean_sql_rewrites_view_name :
  _clean_sql ("SELECT CustomerName FROM " ++ dquote ++ "Order Details" ++ dquote)
  = "SELECT CompanyName FROM order_items".
Proof. vm_compute. reflexivity. Qed.

Example confidence_rows_one_repair :
  (_calculate_confidence (Some (mkSQLResult ["n"] [[VInt 830]] None)) [] 1 == 72 # 100)%Q.
Proof. vm_compute. reflexivity. Qed.

Example confidence_no_evidence :
  (_calculate_confidence None [] 0 == 1 # 2)%Q.
Proof. vm_compute. reflexivity. Qed.

Example format_answer_int :
  _format_answer (B:=cpython) (VStr " 830.0 ") "int" = Ok (VInt 830).
Proof. vm_compute. reflexivity. Qed.

Example format_answer_int_default :
  _format_answer (B:=cpython) (VStr "about 830") "int" = Ok (VInt 0).
Proof. vm_compute. reflexivity. Qed.

Example format_answer_list_wrapped :
  _format_answer (B:=cpython) (VStr "Chai") "list[str]" = Ok (VList [VStr "Chai"]).
Proof. vm_compute. reflexivity. Qed.

Example detect_sql_error_priority :
  _detect_sql_error
    (set_sql_result (Some (mkSQLResult [] [] (Some "near FROM: syntax error, no such table: t")))
                    (initial_state "How many orders?" "int"))
  = Some "sql_syntax_error: near FROM: syntax error, no such table: t".
Proof. vm_compute. reflexivity. Qed.

Example execute_rejects_blank_query :
  execute (fun _ => Fetched ["n"] [[VInt 1]]) "   "
  = mkSQLResult [] [] (Some "empty_query").
Proof. vm_compute. reflexivity. Qed.

(* ===================================================================== *)
(** * Exceptions: basic facts *)
(* ===================================================================== *)

Lemma catch_returns {A} (body : exc A) (x : A) : exists v, catch body (Ok x) = Ok v.
Proof. destruct body; simpl; eauto. Qed.

Lemma bind_ok {A C} (m : exc A) (k : A -> exc C) (c : C) :
  m ≫= k = Ok c -> exists a, m = Ok a /\ k a = Ok c.
Proof. destruct m; simpl; [eauto | discriminate]. Qed.

(* ===================================================================== *)
(** * Query text normalization *)
(* ===================================================================== *)

Section Replace.
Import Text.

Lemma prefix_nil_r q : String.prefix q EmptyString = true -> q = EmptyString.
Proof. destruct q; simpl; congruence. Qed.

Lemma prefix_cons_inv a q c s :
  String.prefix (String a q) (String c s) = true -> a = c /\ String.prefix q s = true.
Proof. simpl. destruct (ascii_dec a c); [auto | discriminate]. Qed.

Lemma prefix_cons a q s : String.prefix q s = true -> String.prefix (String a q) (String a s) = true.
Proof. intros H. simpl. destruct (ascii_dec a a); [exact H | congruence]. Qed.

Lemma clash_no_prefix q x : clash q x = true -> forall t, String.prefix q (x ++ t) = false.
Proof.
  revert x. induction q as [|a q IH]; intros [|b x] Hc t; simpl in *; try discriminate.
  destruct (ascii_dec a b); [now apply IH | reflexivity].
Qed.

Lemma contains_nil_false s q : contains s q = false -> q <> EmptyString.
Proof. intros H ->. destruct s; discriminate. Qed.

Lemma contains_cons c s q :
  contains (String c s) q = String.prefix q (String c s) || contains s q.
Proof. reflexivity. Qed.

Lemma contains_app_fresh q r x :
  suffixes_clash q r = true -> contains x q = false -> contains (r ++ x) q = false.
Proof.
  induction r as [|h r IH]; intros Hs Hx; [exact Hx|].
  simpl in Hs. apply andb_prop in Hs as [Hc Hs].
  change (String h r ++ x) with (String h (r ++ x)).
  rewrite contains_cons. apply orb_false_intro; [|now apply IH].
  exact (clash_no_prefix _ _ Hc x).
Qed.

Lemma prefix_replace_inv p h r s : forall q,
  mem_char h q = false ->
  String.prefix q (replace_from 0 p (String h r) s) = true ->
  String.prefix q s = true.
Proof.
  induction s as [|c s IH]; intros q Hm Hp.
  - exact Hp.
  - cbn [replace_from] in Hp. destruct q as [|b q]; [reflexivity|].
    cbn [mem_char] in Hm. destruct (ascii_dec b h) as [|Hbh]; [discriminate|].
    destruct (String.prefix p (String c s)).
    + change (String h r ++ ?t) with (String h (r ++ t)) in Hp.
      apply prefix_cons_inv in Hp as [-> _]. congruence.
    + apply prefix_cons_inv in Hp as [-> Hp]. apply prefix_cons. now apply IH.
Qed.

(** After its own replacement a pattern no longer occurs. *)
Lemma replace_removes p r : fresh p r = true ->
  forall s skip, contains (replace_from skip p r s) p = false.
Proof.
  intros Hf. destruct p as [|a p']; [discriminate|]. destruct r as [|h r]; [discriminate|].
  cbn [fresh] in Hf. apply andb_prop in Hf as [Hm Hs]. apply negb_true_iff in Hm.
  induction s as [|c s IH]; intros skip; [reflexivity|].
  cbn [replace_from]. destruct skip as [|k]; [|apply IH].
  destruct (String.prefix (String a p') (String c s)) eqn:Hp.
  - apply contains_app_fresh; [exact Hs | apply IH].
  - rewrite contains_cons. apply orb_false_intro; [|apply IH].
    destruct (String.prefix _ (String c (replace_from _ _ _ _))) eqn:Hq; [|reflexivity].
    apply prefix_cons_inv in Hq as [-> Hq].
    apply prefix_replace_inv in Hq; [|exact Hm].
    rewrite (prefix_cons c _ _ Hq) in Hp. discriminate.
Qed.

(** A later replacement does not bring back a pattern that is absent. *)
Lemma replace_keeps_absent q p r : fresh q r = true ->
  forall s skip, contains s q = false -> contains (replace_from skip p r s) q = false.
Proof.
  intros Hf. destruct q as [|b q']; [discriminate|]. destruct r as [|h r]; [discriminate|].
  cbn [fresh] in Hf. apply andb_prop in Hf as [Hm Hs]. apply negb_true_iff in Hm.
  induction s as [|c s IH]; intros skip Hn; [exact Hn|].
  rewrite contains_cons in Hn. apply orb_false_elim in Hn as [Hn0 Hn].
  cbn [replace_from]. destruct skip as [|k]; [|now apply IH].
  destruct (String.prefix p (String c s)).
  - apply contains_app_fresh; [exact Hs | now apply IH].
  - rewrite contains_cons. apply orb_false_intro; [|now apply IH].
    destruct (String.prefix _ (String c (replace_from _ _ _ _))) eqn:Hq; [|reflexivity].
    apply prefix_cons_inv in Hq as [-> Hq].
    apply prefix_replace_inv in Hq; [|exact Hm].
    rewrite (prefix_cons c _ _ Hq) in Hn0. discriminate.
Qed.

(** Nothing to replace: the text is returned as it is. *)
Lemma replace_absent p r s : contains s p = false -> replace_from 0 p r s = s.
Proof.
  induction s as [|c s IH]; intros Hn; [reflexivity|].
  rewrite contains_cons in Hn. apply orb_false_elim in Hn as [Hn0 Hn].
  cbn [replace_from]. rewrite Hn0. f_equal. now apply IH.
Qed.

End Replace.

Lemma _clean_sql_unfold sql :
  _clean_sql sql =
  Text.replace_from 0 "CustomerName" "CompanyName"
    (Text.replace_from 0 "Order_Items" "order_items"
       (Text.replace_from 0 (String "034" "Order Details" ++ dquote) "order_items" sql)).
Proof. reflexivity. Qed.

(** C9. Query text normalization is idempotent: applying the rewrite
    rules of [_clean_sql] twice gives the same text as applying them once. *)
Theorem clean_sql_idempotent (s : string) : _clean_sql (_clean_sql s) = _clean_sql s.
Proof.
  rewrite (_clean_sql_unfold s).
  set (p1 := String "034" "Order Details" ++ dquote).
  set (s1 := Text.replace_from 0 p1 "order_items" s).
  set (s2 := Text.replace_from 0 "Order_Items" "order_items" s1).
  set (s3 := Text.replace_from 0 "CustomerName" "CompanyName" s2).
  assert (H1 : Text.contains s1 p1 = false) by (apply replace_removes; reflexivity).
  assert (H2 : Text.contains s2 "Order_Items" = false) by (apply replace_removes; reflexivity).
  assert (H3 : Text.contains s3 "CustomerName" = false) by (apply replace_removes; reflexivity).
  assert (H12 : Text.contains s2 p1 = false) by (apply replace_keeps_absent; [reflexivity | exact H1]).
  assert (H13 : Text.contains s3 p1 = false) by (apply replace_keeps_absent; [reflexivity | exact H12]).
  assert (H23 : Text.contains s3 "Order_Items" = false) by (apply replace_keeps_absent; [reflexivity | exact H2]).
  rewrite _clean_sql_unfold. fold p1.
  rewrite (replace_absent p1 _ s3 H13), (replace_absent _ _ s3 H23), (replace_absent _ _ s3 H3).
  reflexivity.
Qed.

(* ===================================================================== *)
(** * Answer coercion *)
(* ===================================================================== *)

Section Coercion.
Context `{B : Builtins}.

Lemma format_answer_returns answer format_hint :
  exists v, _format_answer answer format_hint = Ok v.
Proof. apply catch_returns. Qed.

Lemma eqb_false_neq (a b : string) : String.eqb a b = false -> a <> b.
Proof. apply String.eqb_neq. Qed.

Lemma format_answer_coerced answer format_hint v :
  _format_answer answer format_hint = Ok v -> Coerced answer format_hint v.
Proof.
  unfold _format_answer, _format_answer_try, _get_format_default.
  set (text := Text.strip (py_str answer)).
  destruct (String.eqb format_hint "int") eqn:Hint.
  { apply String.eqb_eq in Hint.
    destruct (py_float text) as [f|e] eqn:Hf; simpl.
    - destruct (py_int f) as [n|e] eqn:Hn; simpl; intros [= <-].
      + now apply (coerced_int _ _ f n).
      + apply (coerced_int_default _ _ e); [easy|]. fold text. now rewrite Hf.
    - intros [= <-]. apply (coerced_int_default _ _ e); [easy|]. fold text. now rewrite Hf. }
  destruct (String.eqb format_hint "float") eqn:Hfloat.
  { apply String.eqb_eq in Hfloat.
    destruct (py_float text) as [f|e] eqn:Hf; simpl; intros [= <-].
    - now apply coerced_float.
    - now apply (coerced_float_default _ _ e). }
  apply eqb_false_neq in Hint, Hfloat.
  fold (list_hint format_hint). fold (object_hint format_hint).
  destruct (list_hint format_hint) eqn:Hlist.
  { destruct (is_list answer) eqn:Hl; simpl.
    - intros [= <-]. now apply coerced_list_same.
    - destruct (json_loads text) as [x|e] eqn:Hj; simpl; intros [= <-].
      + now apply coerced_list_decoded.
      + now apply (coerced_list_wrapped _ _ e). }
  destruct (object_hint format_hint) eqn:Hobj.
  { destruct (is_dict answer) eqn:Hd; simpl.
    - intros [= <-]. now apply coerced_object_same.
    - destruct (json_loads text) as [x|e] eqn:Hj; simpl; intros [= <-].
      + now apply coerced_object_decoded.
      + now apply (coerced_object_wrapped _ _ e). }
  simpl. intros [= <-]. now apply coerced_text.
Qed.

End Coercion.

(** C7 (as amended). Answer coercion is total: for every format hint and
    every answer it returns a value and never raises. An [int] hint yields
    the integer part of the parsed number, or [0]; a [float] hint yields
    the parsed number rounded to two decimals, or [0.0]; a [list] or
    [list[...]] hint yields the answer itself when it is a sequence, else
    whatever value its text decodes to as JSON, else the text wrapped in a
    one-element list; an [object] or [{...}] hint likewise with a mapping
    and [{"result": text}]; any other hint yields the text. *)
Theorem format_answer_total `{B : Builtins} (answer : value) (format_hint : string) :
  exists v, _format_answer answer format_hint = Ok v /\ Coerced answer format_hint v.
Proof.
  destruct (format_answer_returns answer format_hint) as [v Hv].
  exists v. split; [exact Hv | now apply format_answer_coerced].
Qed.

(** C7 (counterexample). With the hint [list], the answer text [42]
    decodes as JSON to the integer 42, which is returned: not a sequence. *)
Lemma format_answer_list_hint_yields_int :
  list_hint "list" = true /\
  _format_answer (B:=cpython) (VStr "42") "list" = Ok (VInt 42) /\
  is_list (VInt 42) = false.
Proof. repeat split; vm_compute; reflexivity. Qed.

(* ===================================================================== *)
(** * Confidence scoring *)
(* ===================================================================== *)

Lemma py_max_lower (a b : Q) : (a <= py_max a b)%Q.
Proof. unfold py_max. destruct (Qlt_le_dec a b); lra. Qed.

Lemma py_max_upper (a b c : Q) : (a <= c)%Q -> (b <= c)%Q -> (py_max a b <= c)%Q.
Proof. unfold py_max. destruct (Qlt_le_dec a b); lra. Qed.

Lemma py_min_upper (a b : Q) : (py_min a b <= a)%Q.
Proof. unfold py_min. destruct (Qlt_le_dec b a); lra. Qed.

Lemma calculate_confidence_in_range sql_result retrieved_docs repair_count :
  in_range (_calculate_confidence sql_result retrieved_docs repair_count).
Proof.
  unfold _calculate_confidence, in_range. split.
  - apply py_max_lower.
  - apply py_max_upper; [lra | apply py_min_upper].
Qed.


Section Synthesis.
Context `{B : Builtins}.

(** Past the model call, [forward] returns; its confidence is
    [_calculate_confidence] and its citations are the decoded text, the
    empty list for an empty text, or the fallback. *)
Lemma forward_returns synthesis format_hint sql_result retrieved_docs repair_count :
  exists p,
    SynthesizerModule_forward (Ok synthesis) format_hint sql_result retrieved_docs repair_count
      = Ok p
    /\ dspy_signatures.confidence p
       = _calculate_confidence sql_result retrieved_docs repair_count
    /\ Ok (dspy_signatures.citations p)
       = catch (let text := dspy_signatures.getattr (dspy_signatures.citations_text synthesis) "[]" in
                if nonempty text then json_loads text else Ok (VList []))
               (Ok (VList (VStr <$> _generate_basic_citations sql_result retrieved_docs))).
Proof.
  unfold SynthesizerModule_forward. cbn [mbind exc_bind].
  match goal with |- context [catch ?m (mret ?x)] =>
    destruct (catch_returns m x) as [c Hc]; change (mret x) with (Ok x); rewrite Hc end.
  cbn [mbind exc_bind].
  match goal with |- context [_format_answer ?a ?h] =>
    destruct (format_answer_returns a h) as [v Hv]; rewrite Hv end.
  cbn [mbind exc_bind]. eexists. split; [reflexivity|].
  split; [reflexivity | symmetry; exact Hc].
Qed.

End Synthesis.


(* ===================================================================== *)
(** * Citations *)
(* ===================================================================== *)


Lemma nonempty_true (x : string) : nonempty x = true <-> x <> EmptyString.
Proof. destruct x; simpl; split; congruence. Qed.






(* ===================================================================== *)
(** * The graph: what one step does *)
(* ===================================================================== *)

Lemma decay_le_1 (n : Z) : 0 <= n -> (0 <= (9 # 10) ^ n /\ (9 # 10) ^ n <= 1)%Q.
Proof.
  intros Hn. split; [apply Qpower_0_le; lra|].
  pattern n. apply natlike_ind; [simpl; lra | | exact Hn].
  intros k Hk IH. unfold Z.succ. rewrite Qpower_plus by lra.
  assert (0 <= (9 # 10) ^ k)%Q by (apply Qpower_0_le; lra).
  change ((9 # 10) ^ 1)%Q with (9 # 10)%Q. nra.
Qed.

Section Steps.
Context `{B : Builtins}.

Lemma forward_confidence m format_hint sql_result retrieved_docs repair_count p :
  SynthesizerModule_forward m format_hint sql_result retrieved_docs repair_count = Ok p ->
  dspy_signatures.confidence p = _calculate_confidence sql_result retrieved_docs repair_count.
Proof.
  destruct m as [synthesis|e]; [|discriminate].
  destruct (forward_returns synthesis format_hint sql_result retrieved_docs repair_count)
    as (p' & Hp & Hc & _).
  rewrite Hp. now intros [= <-].
Qed.

Lemma repair_node_returns state : exists state', repair_node state = Ok state'.
Proof. unfold repair_node. repeat case_match; eauto. Qed.

Lemma repair_node_count state state' :
  repair_node state = Ok state' -> repair_count state' = repair_count state + 1.
Proof. unfold repair_node. repeat case_match; intros [= <-]; reflexivity. Qed.

Lemma repair_node_range state state' :
  repair_node state = Ok state' ->
  0 <= repair_count state -> in_range (confidence state) -> in_range (confidence state').
Proof.
  unfold repair_node, in_range. intros H Hrc [Hlo Hhi].
  repeat case_match; injection H as <-; cbn [confidence set_confidence set_error set_repair_count
    repair_count]; try (split; assumption).
  - split; [apply py_max_lower | apply py_max_upper; nra].
  - destruct (decay_le_1 (repair_count state + 1)) as [Hd0 Hd1]; [lia|].
    split; [apply py_max_lower | apply py_max_upper; nra].
Qed.

(** What a node does to [repair_count] and to [confidence]. *)
Lemma node_fn_effect w t n state state' :
  node_fn w t n state = Ok state' ->
  match n with
  | synthesizer =>
      repair_count state' = repair_count state /\ in_range (confidence state')
  | repair =>
      repair_count state' = repair_count state + 1 /\
      (0 <= repair_count state -> in_range (confidence state) -> in_range (confidence state'))
  | _ =>
      repair_count state' = repair_count state /\ confidence state' = confidence state
  end.
Proof.
  destruct n; cbn [node_fn]; intros H.
  - unfold router_node in H. apply bind_ok in H as (r & _ & [= <-]). now split.
  - unfold retriever_node in H. injection H as <-. now split.
  - unfold planner_node in H. apply bind_ok in H as (c & _ & H).
    apply bind_ok in H as (x & _ & [= <-]). now split.
  - unfold nl2sql_node in H. apply bind_ok in H as (c & _ & H).
    apply bind_ok in H as (x & _ & [= <-]). now split.
  - unfold executor_node in H. case_match; injection H as <-; now split.
  - unfold synthesizer_node in H. apply bind_ok in H as (p & Hp & [= <-]).
    cbn [repair_count confidence set_citations set_explanation set_confidence set_final_answer].
    split; [reflexivity|]. rewrite (forward_confidence _ _ _ _ _ _ Hp).
    apply calculate_confidence_in_range.
  - split; [now apply repair_node_count | now apply repair_node_range].
  - injection H as <-. now split.
Qed.

(** Where an edge leads. *)
Lemma edge_target n state n' :
  edge n state = Ok n' ->
  match n with
  | router => n' = retriever \/ n' = planner
  | retriever => n' = planner \/ n' = synthesizer
  | planner => n' = nl2sql \/ n' = synthesizer
  | nl2sql => n' = executor
  | executor => n' = synthesizer
  | synthesizer => n' = END \/ (n' = repair /\ repair_count state < 2)
  | repair => n' = nl2sql \/ n' = synthesizer
  | END => n' = END
  end.
Proof.
  destruct n; cbn [edge]; intros H.
  - injection H as <-. unfold should_retrieve. case_match; auto.
  - injection H as <-. unfold should_plan. case_match; auto.
  - injection H as <-. unfold should_execute_sql. case_match; auto.
  - now injection H as <-.
  - now injection H as <-.
  - injection H as <-. unfold should_repair.
    destruct (2 <=? repair_count state) eqn:Hrc; [auto|].
    apply Z.leb_gt in Hrc. case_match; auto.
  - unfold after_repair in H. repeat case_match; try discriminate; injection H as <-; auto.
  - now injection H as <-.
Qed.

(** Every step keeps the counter admissible, lowers the potential and
    pays for the synthesizer executions out of the budget. *)
Lemma step_progress w t n state n' state' :
  step w t n state = Ok (n', state') ->
  n <> END ->
  admissible n (repair_count state) ->
  admissible n' (repair_count state')
  /\ potential n' (repair_count state') < potential n (repair_count state)
  /\ budget n' (repair_count state') + (if node_eqb n synthesizer then 1 else 0)
     <= budget n (repair_count state).
Proof.
  unfold step. intros H Hn [Hrc Hrep].
  apply bind_ok in H as (s1 & Hnode & H). apply bind_ok in H as (n1 & Hedge & [= <- <-]).
  apply node_fn_effect in Hnode. apply edge_target in Hedge.
  unfold admissible.
  destruct n; try congruence; cbn [potential budget rank node_eqb];
    destruct Hnode as [Hc _]; rewrite Hc;
    repeat match goal with
           | H : _ \/ _ |- _ => destruct H
           | H : _ /\ _ |- _ => destruct H
           end; subst; cbn [potential budget rank];
    try (specialize (Hrep eq_refl));
    (split; [split; [lia | intros; try discriminate; lia] | split; lia]).
Qed.

Lemma run_END fuel w t state : run fuel w t END state = ([], Finished state).
Proof. destruct fuel; reflexivity. Qed.

Lemma run_step fuel w t n state :
  n <> END ->
  run (S fuel) w t n state =
  match step w t n state with
  | Raise e => ([(n, state)], Raised e)
  | Ok (n', state') =>
      let '(visited, outcome) := run fuel w (S t) n' state' in
      ((n, state) :: visited, outcome)
  end.
Proof. destruct n; congruence || reflexivity. Qed.

Lemma potential_positive n rc : n <> END -> admissible n rc -> 0 < potential n rc.
Proof.
  intros Hn [Hrc Hrep]. destruct n; try congruence; cbn [potential rank]; try lia.
  specialize (Hrep eq_refl). lia.
Qed.

Lemma budget_covers n rc :
  admissible n rc -> (if node_eqb n synthesizer then 1 else 0) <= budget n rc.
Proof.
  intros [Hrc Hrep]. destruct n; cbn [budget node_eqb]; lia.
Qed.

Lemma visits_cons n c visited :
  Z.of_nat (visits n (c :: visited))
  = (if node_eqb c.1 n then 1 else 0) + Z.of_nat (visits n visited).
Proof. unfold visits. cbn [List.filter]. destruct (node_eqb c.1 n); cbn [length]; lia. Qed.

(** The run halts within [potential] steps and executes the synthesizer
    at most [budget] times. *)
Lemma run_bounded fuel : forall w t n state,
  admissible n (repair_count state) ->
  potential n (repair_count state) <= Z.of_nat fuel ->
  halted (run fuel w t n state).2 = true
  /\ Z.of_nat (visits synthesizer (run fuel w t n state).1) <= budget n (repair_count state).
Proof.
  induction fuel as [|fuel IH]; intros w t n state Hadm Hpot.
  - destruct (decide (n = END)) as [->|Hn]; [now split|].
    pose proof (potential_positive _ _ Hn Hadm). lia.
  - destruct (decide (n = END)) as [->|Hn]; [now split|].
    rewrite (run_step _ _ _ _ _ Hn).
    destruct (step w t n state) as [[n' state']|e] eqn:Hstep.
    + destruct (step_progress _ _ _ _ _ _ Hstep Hn Hadm) as (Hadm' & Hlt & Hbud).
      specialize (IH w (S t) n' state' Hadm' ltac:(lia)).
      destruct (run fuel w (S t) n' state') as [visited outcome]. cbn [fst snd] in *.
      split; [tauto|]. rewrite visits_cons. cbn [fst]. lia.
    + cbn [fst snd]. split; [reflexivity|].
      rewrite visits_cons. cbn [fst]. pose proof (budget_covers _ _ Hadm).
      change (Z.of_nat (visits synthesizer [])) with 0. lia.
Qed.

End Steps.


(* ===================================================================== *)
(** * The graph: whole runs *)
(* ===================================================================== *)

Section Runs.
Context `{B : Builtins}.

Lemma initial_admissible question format_hint :
  admissible router (repair_count (initial_state question format_hint)).
Proof. split; [cbn; lia | discriminate]. Qed.

(** Every state a run visits, and the state it ends with, has an
    admissible [repair_count]. *)
Lemma run_admissible fuel : forall w t n state,
  admissible n (repair_count state) ->
  Forall (fun c => admissible c.1 (repair_count c.2)) (run fuel w t n state).1
  /\ match (run fuel w t n state).2 with
     | Finished state' | Running _ state' => 0 <= repair_count state' <= 2
     | Raised _ => True
     end.
Proof.
  induction fuel as [|fuel IH]; intros w t n state Hadm.
  - destruct n; cbn; (split; [constructor | apply Hadm]).
  - destruct (decide (n = END)) as [->|Hn]; [cbn; split; [constructor | apply Hadm]|].
    rewrite (run_step _ _ _ _ _ Hn).
    destruct (step w t n state) as [[n' state']|e] eqn:Hstep.
    + destruct (step_progress _ _ _ _ _ _ Hstep Hn Hadm) as (Hadm' & _).
      specialize (IH w (S t) n' state' Hadm').
      destruct (run fuel w (S t) n' state') as [visited outcome]. cbn [fst snd] in *.
      split; [constructor; [exact Hadm | tauto] | tauto].
    + cbn [fst snd]. split; [|exact I]. constructor; [exact Hadm | constructor].
Qed.

Lemma step_range w t n state n' state' :
  step w t n state = Ok (n', state') ->
  0 <= repair_count state -> in_range (confidence state) ->
  0 <= repair_count state' /\ in_range (confidence state').
Proof.
  unfold step. intros H Hrc Hin.
  apply bind_ok in H as (s1 & Hnode & H). apply bind_ok in H as (n1 & _ & [= <- <-]).
  apply node_fn_effect in Hnode.
  destruct n; destruct Hnode as [Hc Hq]; rewrite Hc; try rewrite Hq;
    (split; [lia | auto]).
Qed.

(** Once the confidence is in range it stays in range. *)
Lemma run_keeps_range fuel : forall w t n state,
  0 <= repair_count state -> in_range (confidence state) ->
  Forall (fun s => in_range (confidence s)) (List.map snd (run fuel w t n state).1)
  /\ (forall state', (run fuel w t n state).2 = Finished state' ->
                     in_range (confidence state')).
Proof.
  induction fuel as [|fuel IH]; intros w t n state Hrc Hin.
  - destruct n; cbn; (split; [constructor | intros ?; try discriminate; now intros [= <-]]).
  - destruct (decide (n = END)) as [->|Hn].
    { cbn. split; [constructor | now intros ? [= <-]]. }
    rewrite (run_step _ _ _ _ _ Hn).
    destruct (step w t n state) as [[n' state']|e] eqn:Hstep.
    + destruct (step_range _ _ _ _ _ _ Hstep Hrc Hin) as [Hrc' Hin'].
      specialize (IH w (S t) n' state' Hrc' Hin').
      destruct (run fuel w (S t) n' state') as [visited outcome]. cbn [fst snd List.map] in *.
      split; [constructor; [exact Hin | tauto] | tauto].
    + cbn [fst snd List.map]. split; [|discriminate].
      constructor; [exact Hin | constructor].
Qed.

Lemma step_count w t n state n' state' :
  step w t n state = Ok (n', state') ->
  0 <= repair_count state -> 0 <= repair_count state'.
Proof.
  unfold step. intros H Hrc.
  apply bind_ok in H as (s1 & Hnode & H). apply bind_ok in H as (n1 & _ & [= <- <-]).
  apply node_fn_effect in Hnode. destruct n; destruct Hnode as [Hc _]; lia.
Qed.

Lemma step_synthesizer_range w t state n' state' :
  step w t synthesizer state = Ok (n', state') -> in_range (confidence state').
Proof.
  unfold step. intros H.
  apply bind_ok in H as (s1 & Hnode & H). apply bind_ok in H as (n1 & _ & [= <- <-]).
  apply node_fn_effect in Hnode. tauto.
Qed.

Lemma step_not_END w t n state n' state' :
  step w t n state = Ok (n', state') -> n <> synthesizer -> n <> END -> n' <> END.
Proof.
  unfold step. intros H Hs He.
  apply bind_ok in H as (s1 & _ & H). apply bind_ok in H as (n1 & Hedge & [= <- <-]).
  apply edge_target in Hedge.
  destruct n; try congruence;
    repeat match goal with H : _ \/ _ |- _ => destruct H end; subst; discriminate.
Qed.

(** From the first synthesis on, the confidence is in range. *)
Lemma run_sets_range fuel : forall w t n state,
  0 <= repair_count state -> n <> END ->
  Forall (fun s => in_range (confidence s)) (after_synthesis (run fuel w t n state).1)
  /\ (forall state', (run fuel w t n state).2 = Finished state' ->
                     in_range (confidence state')).
Proof.
  induction fuel as [|fuel IH]; intros w t n state Hrc Hn.
  - destruct n; try congruence; cbn; (split; [constructor | discriminate]).
  - rewrite (run_step _ _ _ _ _ Hn).
    destruct (step w t n state) as [[n' state']|e] eqn:Hstep.
    + pose proof (step_count _ _ _ _ _ _ Hstep Hrc) as Hrc'.
      destruct (decide (n = synthesizer)) as [->|Hs].
      * pose proof (step_synthesizer_range _ _ _ _ _ Hstep) as Hin'.
        destruct (run_keeps_range fuel w (S t) n' state' Hrc' Hin') as [Hall Hfin].
        destruct (run fuel w (S t) n' state') as [visited outcome].
        cbn [fst snd after_synthesis node_eqb] in *. split; assumption.
      * pose proof (step_not_END _ _ _ _ _ _ Hstep Hs Hn) as Hn'.
        destruct (IH w (S t) n' state' Hrc' Hn') as [Hall Hfin].
        destruct (run fuel w (S t) n' state') as [visited outcome].
        cbn [fst snd after_synthesis] in *.
        destruct n; try congruence; cbn [node_eqb]; split; assumption.
    + cbn [fst snd after_synthesis]. split; [|discriminate].
      destruct (node_eqb n synthesizer); constructor.
Qed.

End Runs.

(** The runtime's step limit is never reached. *)
Lemma invoke_within_limit `{B : Builtins} (w : World) (question format_hint : string) :
  halted (invoke recursion_limit w (initial_state question format_hint)).2 = true.
Proof.
  unfold invoke, recursion_limit.
  apply (run_bounded 25 w 0%nat router (initial_state question format_hint)).
  - apply initial_admissible.
  - cbn [potential rank repair_count initial_state]. lia.
Qed.


(** C10. In every state a run started from the initial state visits,
    [repair_count] is at most 2; the repair node is only entered with
    [repair_count] below 2, so the test [repair_count > 2] that follows
    its increment is false and the forced acceptance it guards is never
    executed. *)
Theorem repair_count_bound `{B : Builtins}
    (w : World) (question format_hint : string) (fuel : nat) :
  Forall (fun c =>
            0 <= repair_count c.2 <= 2
            /\ (c.1 = repair ->
                repair_count c.2 < 2
                /\ hard_stop (set_repair_count (repair_count c.2 + 1) c.2) = false))
         (invoke fuel w (initial_state question format_hint)).1
  /\ match (invoke fuel w (initial_state question format_hint)).2 with
     | Finished state | Running _ state => 0 <= repair_count state <= 2
     | Raised _ => True
     end.
Proof.
  unfold invoke.
  destruct (run_admissible fuel w 0%nat router (initial_state question format_hint)
              (initial_admissible question format_hint)) as [Hall Hend].
  split; [|exact Hend].
  eapply Forall_impl; [exact Hall|].
  intros [n state] [Hrc Hrep]. cbn [fst snd] in *. split; [exact Hrc|].
  intros ->. specialize (Hrep eq_refl). split; [exact Hrep|].
  unfold hard_stop. cbn [repair_count set_repair_count]. apply Z.ltb_ge. lia.
Qed.

(* ===================================================================== *)
(** * The confidence invariant *)
(* ===================================================================== *)

Lemma round_half_even_bounds (x : Q) (lo hi : Z) :
  (inject_Z lo <= x)%Q -> (x <= inject_Z hi)%Q -> lo <= round_half_even x <= hi.
Proof.
  intros Hlo Hhi. unfold round_half_even.
  pose proof (Qfloor_le x) as Hfl. pose proof (Qlt_floor x) as Hlt.
  set (n := Qfloor x) in *.
  assert (Hn1 : lo <= n).
  { assert (H : (inject_Z lo < inject_Z (n + 1))%Q) by (eapply Qle_lt_trans; eassumption).
    rewrite <- Zlt_Qlt in H. lia. }
  assert (Hn2 : n <= hi).
  { rewrite Zle_Qle. eapply Qle_trans; eassumption. }
  destruct ((x - inject_Z n ?= 1 # 2)%Q) eqn:Hcmp; [destruct (Z.even n) | | ]; try lia.
  - apply Qeq_alt in Hcmp.
    destruct (Z.eq_dec n hi) as [->|]; [|lia]. lra.
  - apply Qgt_alt in Hcmp.
    destruct (Z.eq_dec n hi) as [->|]; [|lia]. lra.
Qed.

Lemma round2_in_range (c : Q) : in_range c -> in_range (round2 c).
Proof.
  intros [Hlo Hhi]. unfold round2.
  destruct (round_half_even_bounds (c * 100) 10 100) as [H1 H2].
  - change (inject_Z 10) with (10 # 1)%Q. lra.
  - change (inject_Z 100) with (100 # 1)%Q. lra.
  - split; unfold Qle; cbn [Qnum Qden]; lia.
Qed.

Section Driver.
Context `{B : Builtins}.

Lemma synthesizer_node_range w t state state' :
  synthesizer_node w t state = Ok state' -> in_range (confidence state').
Proof. intros H. exact (proj2 (node_fn_effect w t synthesizer state state' H)). Qed.

Lemma invoke_range w question format_hint fuel :
  Forall (fun s => in_range (confidence s))
         (after_synthesis (invoke fuel w (initial_state question format_hint)).1)
  /\ (forall state', (invoke fuel w (initial_state question format_hint)).2 = Finished state' ->
                     in_range (confidence state')).
Proof. apply run_sets_range; [cbn; lia | discriminate]. Qed.

Lemma process_question_range w item : in_range (out_confidence (process_question w item)).
Proof.
  unfold process_question.
  set (question := dspy_signatures.getattr (item_question item) EmptyString).
  set (format_hint := dspy_signatures.getattr (item_format_hint item) "str").
  destruct (invoke_range w question format_hint recursion_limit) as [_ Hfin].
  destruct (invoke recursion_limit w (initial_state question format_hint)).2 as [s|e|n s];
    cbn [out_confidence fallback_record].
  - apply round2_in_range, Hfin. reflexivity.
  - split; lra.
  - split; lra.
Qed.

End Driver.

(** C8. Once a stage of the engine has set the confidence, it lies
    between 0.1 and 1.0: the synthesizer sets it in this range, the repair
    node keeps it there, every state a run visits after its first
    synthesis and the state it ends with have it there, and so has the
    record the batch driver writes, the fallback record included. *)
Theorem confidence_invariant `{B : Builtins} :
  (forall sql_result retrieved_docs repair_count,
      in_range (_calculate_confidence sql_result retrieved_docs repair_count))
  /\ (forall w t state state',
         synthesizer_node w t state = Ok state' -> in_range (confidence state'))
  /\ (forall state state',
         repair_node state = Ok state' ->
         0 <= repair_count state -> in_range (confidence state) ->
         in_range (confidence state'))
  /\ (forall w question format_hint fuel,
         Forall (fun s => in_range (confidence s))
                (after_synthesis (invoke fuel w (initial_state question format_hint)).1)
         /\ (forall state',
                (invoke fuel w (initial_state question format_hint)).2 = Finished state' ->
                in_range (confidence state')))
  /\ (forall w item, in_range (out_confidence (process_question w item)))
  /\ (forall question_id format_hint e,
         out_confidence (fallback_record question_id format_hint e) = (1 # 10)%Q).
Proof.
  split; [apply calculate_confidence_in_range|].
  split; [apply synthesizer_node_range|].
  split; [apply repair_node_range|].
  split; [apply invoke_range|].
  split; [apply process_question_range | reflexivity].
Qed.

Lemma confidence_invariant_witness :
  0 <= repair_count (set_confidence (8 # 10) (initial_state "How many orders?" "int"))
  /\ in_range (confidence (set_confidence (8 # 10) (initial_state "How many orders?" "int")))
  /\ exists state',
       repair_node (B:=cpython) (set_confidence (8 # 10) (initial_state "How many orders?" "int"))
         = Ok state'
       /\ in_range (confidence state').
Proof.
  assert (Hrc : 0 <= repair_count (set_confidence (8 # 10) (initial_state "How many orders?" "int")))
    by (cbn; lia).
  assert (Hin : in_range (confidence (set_confidence (8 # 10)
                                        (initial_state "How many orders?" "int"))))
    by (split; cbn; lra).
  split; [exact Hrc|]. split; [exact Hin|].
  destruct (repair_node_returns (B:=cpython)
              (set_confidence (8 # 10) (initial_state "How many orders?" "int"))) as [state' Hs].
  exists state'. split; [exact Hs|].
  exact (proj1 (proj2 (proj2 (confidence_invariant (B:=cpython)))) _ _ Hs Hrc Hin).
Defined.

(* ===================================================================== *)
(** * The repair loop on two scripted runs *)
(* ===================================================================== *)

(** C1 (the code at the failing input). The store rejects the query with
    [no such column: nope]. Both times the repair node runs, the error is
    classified [sql_column_error], a tag of the query family, while the
    [error] field holds the store's own message, which does not start with
    [sql_]: the run goes on to the synthesizer, never back to query
    generation. *)
Theorem query_error_routed_to_synthesizer :
  List.map fst query_error_run.1
  = [router; planner; nl2sql; executor; synthesizer; repair; synthesizer; repair; synthesizer]
  /\ List.map _detect_sql_error (entered repair query_error_run.1)
     = [Some "sql_column_error: no such column: nope";
        Some "sql_column_error: no such column: nope"]
  /\ List.map error (entered repair query_error_run.1)
     = [Some "no such column: nope"; Some "no such column: nope"]
  /\ List.map (fun s => repair_node (B:=cpython) s ≫= after_repair)
              (entered repair query_error_run.1)
     = [Ok synthesizer; Ok synthesizer].
Proof. repeat split; vm_compute; reflexivity. Qed.

(** C4 (the code at the failing input). The query error persists through
    both repairs. The run ends after the third synthesis with
    [repair_count = 2]: the confidence is the synthesizer's
    [0.5 * 0.9^2 = 0.405], not 0.3 times the previous one, the [error]
    field still holds the store's message, and neither visit of the repair
    node took the forced acceptance. *)
Theorem persisting_error_not_force_accepted :
  match query_error_run.2 with
  | Finished state =>
      repair_count state = 2
      /\ error state = Some "no such column: nope"
      /\ (confidence state == 405 # 1000)%Q
      /\ final_answer state = VInt 42
  | _ => False
  end
  /\ List.map (fun s => hard_stop (set_repair_count (repair_count s + 1) s))
              (entered repair query_error_run.1)
     = [false; false]
  /\ List.map (fun s => Qred (confidence s)) (entered repair query_error_run.1)
     = [(1 # 2)%Q; (9 # 20)%Q].
Proof. vm_compute. repeat split; reflexivity. Qed.

(** C5 (the code at the failing input). A list is asked for and the model
    answers [42], which decodes to an integer: format validation fails,
    the repair node runs, and since no query was executed the [error]
    field is [None]; the routing after repair calls [startswith] on it and
    the [AttributeError] leaves the graph. *)
Theorem format_error_raises :
  List.map fst format_error_run.1 = [router; retriever; synthesizer; repair]
  /\ format_error_run.2 = Raised no_startswith
  /\ List.map (_detect_format_error (B:=cpython)) (entered repair format_error_run.1)
     = [Some "format_validation_failed: expected list, got int"]
  /\ List.map error (entered repair format_error_run.1) = [None].
Proof. repeat split; vm_compute; reflexivity. Qed.

(* ===================================================================== *)
(** * Text: lengths and white space *)
(* ===================================================================== *)

Lemma length_substring_0 (m : nat) : forall s, (String.length (String.substring 0 m s) <= m)%nat.
Proof.
  induction m as [|m IH]; intros [|c s]; cbn; try lia.
  specialize (IH s). lia.
Qed.

Lemma length_take (n : nat) (s : string) : (String.length (Text.take n s) <= n)%nat.
Proof. apply length_substring_0. Qed.

Lemma lstrip_head s : Text.lstrip s = EmptyString \/ head_ok (Text.lstrip s) = true.
Proof.
  induction s as [|c s IH]; [now left|]. cbn [Text.lstrip].
  destruct (Text.isspace c) eqn:Hc; [exact IH|]. right. cbn. now rewrite Hc.
Qed.

Lemma rstrip_head s : head_ok s = true -> head_ok (Text.rstrip s) = true.
Proof.
  destruct s as [|c s]; [discriminate|]. cbn [head_ok Text.rstrip]. intros Hc.
  destruct (Text.rstrip s); [|exact Hc].
  apply negb_true_iff in Hc. rewrite Hc. cbn. now rewrite Hc.
Qed.

Lemma lstrip_id s : head_ok s = true -> Text.lstrip s = s.
Proof.
  destruct s as [|c s]; [discriminate|]. cbn. intros Hc. apply negb_true_iff in Hc. now rewrite Hc.
Qed.

Lemma rstrip_nil s : Text.rstrip s = EmptyString -> Text.lstrip s = EmptyString.
Proof.
  induction s as [|c s IH]; [reflexivity|]. cbn [Text.rstrip Text.lstrip].
  destruct (Text.rstrip s) eqn:Hr; [|discriminate].
  destruct (Text.isspace c); [intros _; now apply IH | discriminate].
Qed.

(** A stripped text is empty or starts with a character that is not white
    space. *)
Lemma strip_head s : Text.strip s = EmptyString \/ head_ok (Text.strip s) = true.
Proof.
  unfold Text.strip. destruct (lstrip_head s) as [H|H].
  - left. now rewrite H.
  - right. now apply rstrip_head.
Qed.

(** A text that starts with such a character is not blank. *)
Lemma head_ok_not_blank s : head_ok s = true -> nonempty (Text.strip s) = true.
Proof.
  intros H. unfold Text.strip. rewrite (lstrip_id _ H).
  apply rstrip_head in H. destruct (Text.rstrip s); [discriminate | reflexivity].
Qed.

Lemma replace_from_head old new s :
  head_ok s = true -> head_ok new = true -> head_ok (Text.replace_from 0 old new s) = true.
Proof.
  destruct s as [|c s]; [discriminate|]. intros Hs Hn. cbn [Text.replace_from].
  destruct (String.prefix old (String c s)).
  - destruct new as [|h r]; [discriminate|]. exact Hn.
  - exact Hs.
Qed.

(* ===================================================================== *)
(** * The router and the query generator *)
(* ===================================================================== *)

Lemma router_route_cases (answer : option string) :
  exists route,
    dspy_signatures.RouterModule_forward (Ok answer) = Ok route
    /\ In route dspy_signatures.routes.
Proof.
  unfold dspy_signatures.RouterModule_forward. cbn [mbind exc_bind mret exc_ret].
  eexists. split; [reflexivity|].
  destruct (dspy_signatures.mem _ dspy_signatures.routes) eqn:Hm; cbn [negb].
  - unfold dspy_signatures.mem in Hm. apply existsb_exists in Hm as (y & Hy & Heq).
    apply String.eqb_eq in Heq. now rewrite Heq.
  - cbn. tauto.
Qed.

(** X1. Whatever the model answers, [RouterModule.forward] yields one of
    [rag], [sql], [hybrid]: the answer lower-cased and stripped when that
    is one of the three, and [hybrid] otherwise or when the field is
    missing. *)
Theorem router_route_valid (answer : option string) :
  exists route,
    dspy_signatures.RouterModule_forward (Ok answer) = Ok route
    /\ (route = "rag" \/ route = "sql" \/ route = "hybrid")
    /\ (forall r, In r dspy_signatures.routes ->
          Text.strip (Text.lower (dspy_signatures.getattr answer "hybrid")) = r -> route = r)
    /\ (~ In (Text.strip (Text.lower (dspy_signatures.getattr answer "hybrid")))
             dspy_signatures.routes -> route = "hybrid").
Proof.
  unfold dspy_signatures.RouterModule_forward. cbn [mbind exc_bind mret exc_ret].
  set (r0 := Text.strip (Text.lower (dspy_signatures.getattr answer "hybrid"))).
  eexists. split; [reflexivity|].
  unfold dspy_signatures.mem, dspy_signatures.routes. cbn [existsb].
  destruct (String.eqb_spec r0 "rag") as [->|H1]; [cbn; intuition congruence|].
  destruct (String.eqb_spec r0 "sql") as [->|H2]; [cbn; intuition congruence|].
  destruct (String.eqb_spec r0 "hybrid") as [->|H3]; [cbn; intuition congruence|].
  cbn. split; [auto|]. split; [|auto].
  intros r [<-|[<-|[<-|[]]]] Hr; congruence.
Qed.

Lemma clean_sql_head sql : head_ok sql = true -> head_ok (_clean_sql sql) = true.
Proof.
  intros H. rewrite _clean_sql_unfold.
  repeat (apply replace_from_head; [|reflexivity]). exact H.
Qed.

Lemma clean_sql_no_alias sql :
  Forall (fun pr => Text.contains (_clean_sql sql) pr.1 = false) dspy_signatures.replacements.
Proof.
  rewrite _clean_sql_unfold.
  set (p1 := String "034" "Order Details" ++ dquote).
  set (s1 := Text.replace_from 0 p1 "order_items" sql).
  set (s2 := Text.replace_from 0 "Order_Items" "order_items" s1).
  assert (H1 : Text.contains s1 p1 = false) by (apply replace_removes; reflexivity).
  assert (H2 : Text.contains s2 "Order_Items" = false) by (apply replace_removes; reflexivity).
  assert (H12 : Text.contains s2 p1 = false)
    by (apply replace_keeps_absent; [reflexivity | exact H1]).
  repeat constructor; cbn [fst].
  - apply replace_keeps_absent; [reflexivity | exact H12].
  - apply replace_keeps_absent; [reflexivity | exact H2].
  - apply replace_removes; reflexivity.
Qed.

Lemma nl2sql_forward_ok (answer : option string) :
  exists sql, dspy_signatures.NL2SQLModule_forward (Ok answer) = Ok sql /\ query_ok sql.
Proof.
  unfold dspy_signatures.NL2SQLModule_forward, query_ok. cbn [mbind exc_bind mret exc_ret].
  set (raw := Text.strip (dspy_signatures.getattr answer EmptyString)).
  eexists. split; [reflexivity|].
  destruct (strip_head (dspy_signatures.getattr answer EmptyString)) as [H|H]; fold raw in H.
  - rewrite H. cbn [nonempty]. split; [reflexivity|]. repeat constructor.
  - assert (Hne : nonempty raw = true) by (destruct raw; [discriminate | reflexivity]).
    rewrite Hne. pose proof (clean_sql_head raw H) as Hc.
    assert (Hne' : nonempty (_clean_sql raw) = true)
      by (destruct (_clean_sql raw); [discriminate | reflexivity]).
    rewrite Hne'. split; [now apply head_ok_not_blank | apply clean_sql_no_alias].
Qed.

(** X2. Whatever the model answers, [NL2SQLModule.forward] yields a query
    that is not blank (so the store never rejects it as [empty_query]) and
    in which none of the three rewritten names occurs; a missing or blank
    answer yields the placeholder [SELECT 1 as error]. *)
Theorem nl2sql_query_never_blank (answer : option string) :
  exists sql,
    dspy_signatures.NL2SQLModule_forward (Ok answer) = Ok sql
    /\ nonempty (Text.strip sql) = true
    /\ Forall (fun pr => Text.contains sql pr.1 = false) dspy_signatures.replacements
    /\ (nonempty (Text.strip (dspy_signatures.getattr answer EmptyString)) = false ->
        sql = "SELECT 1 as error").
Proof.
  destruct (nl2sql_forward_ok answer) as (sql & Hsql & Hne & Hclean).
  exists sql. split; [exact Hsql|]. split; [exact Hne|]. split; [exact Hclean|].
  intros Hblank. unfold dspy_signatures.NL2SQLModule_forward in Hsql.
  cbn [mbind exc_bind mret exc_ret] in Hsql. rewrite Hblank in Hsql. cbn in Hsql.
  rewrite Hblank in Hsql. now injection Hsql as <-.
Qed.

(* ===================================================================== *)
(** * The query store and the retriever *)
(* ===================================================================== *)

Lemma strip_nil_nonempty (s : string) : nonempty s = false -> nonempty (Text.strip s) = false.
Proof. destruct s; [reflexivity | discriminate]. Qed.

(** X3. [SQLiteTool.execute] never passes a blank query or one of more
    than 5000 characters to the store: its result is then the same
    whatever the store would do, an error result tagged [empty_query] or
    [query_too_long]. *)
Theorem execute_rejects_without_store (store store' : string -> StoreAnswer) (query : string) :
  rejected query = true ->
  execute store query = execute store' query
  /\ (execute store query = mkSQLResult [] [] (Some "empty_query")
      \/ execute store query = mkSQLResult [] [] (Some "query_too_long")).
Proof.
  unfold rejected, execute. intros H.
  destruct (nonempty query) eqn:Hq; cbn [negb orb].
  - destruct (nonempty (Text.strip query)) eqn:Hs; cbn [negb orb] in *.
    + rewrite H. split; [reflexivity | now right].
    + split; [reflexivity | now left].
  - split; [reflexivity | now left].
Qed.

Lemma execute_rejects_without_store_witness :
  rejected "   " = true
  /\ execute (fun _ => Fetched ["n"] [[VInt 1]]) "   "
     = execute (fun _ => StoreError "database is locked") "   ".
Proof.
  assert (H : rejected "   " = true) by reflexivity.
  split; [exact H|].
  exact (proj1 (execute_rejects_without_store
                  (fun _ => Fetched ["n"] [[VInt 1]])
                  (fun _ => StoreError "database is locked") "   " H)).
Defined.

(** X4. A result of [SQLiteTool.execute] holds at most 500 rows; a result
    that carries an error has no columns and no rows, and its error text
    has at most 200 characters; a query that is not rejected is passed to
    the store stripped, and what the store fetches comes back without an
    error. *)
Theorem execute_result_shape (store : string -> StoreAnswer) (query : string) :
  (length (rows (execute store query)) <= 500)%nat
  /\ (forall text, sqlite_tool.error (execute store query) = Some text ->
        columns (execute store query) = [] /\ rows (execute store query) = []
        /\ (String.length text <= 200)%nat)
  /\ (forall names tuples,
        rejected query = false -> store (Text.strip query) = Fetched names tuples ->
        execute store query = mkSQLResult names (firstn 500 tuples) None).
Proof.
  assert (Herr : forall tag (P : Prop), (String.length tag <= 200)%nat -> P ->
            (length (rows (mkSQLResult [] [] (Some tag))) <= 500)%nat
            /\ (forall text, sqlite_tool.error (mkSQLResult [] [] (Some tag)) = Some text ->
                  columns (mkSQLResult [] [] (Some tag)) = []
                  /\ rows (mkSQLResult [] [] (Some tag)) = []
                  /\ (String.length text <= 200)%nat)
            /\ P).
  { intros tag P Hlen HP. cbn. split; [lia|]. split; [|exact HP].
    intros text [= <-]. auto. }
  unfold execute, rejected.
  destruct (nonempty query) eqn:Hq; cbn [negb orb].
  - destruct (nonempty (Text.strip query)) eqn:Hs; cbn [negb orb].
    + destruct (5000 <? String.length (Text.strip query))%nat eqn:Hl.
      * apply Herr; [cbn; lia | discriminate].
      * destruct (store (Text.strip query)) as [names tuples|text] eqn:Hst.
        -- cbn [rows columns sqlite_tool.error]. split; [apply firstn_le_length|].
           split; [discriminate|]. intros names' tuples' _ [= <- <-]. reflexivity.
        -- apply Herr; [apply length_take | discriminate].
    + apply Herr; [cbn; lia | discriminate].
  - rewrite (strip_nil_nonempty _ Hq). apply Herr; [cbn; lia | discriminate].
Qed.

Lemma filter_length_le {A} (f : A -> bool) (l : list A) :
  (length (List.filter f l) <= length l)%nat.
Proof. induction l as [|x l IH]; cbn; [lia|]. destruct (f x); cbn; lia. Qed.


Lemma search_bounded (ranked : string -> exc (list Doc)) (query : string) (top_k : nat) :
  docs_bounded top_k (search ranked query top_k).
Proof.
  unfold docs_bounded, search.
  destruct (nonempty (Text.strip query)); cbn [negb]; [|split; [cbn; lia | constructor]].
  destruct (ranked query) as [chunks|e]; [|split; [cbn; lia | constructor]].
  split.
  { rewrite length_map. etransitivity; [apply filter_length_le | apply firstn_le_length]. }
  apply List.Forall_forall. intros d Hd.
  apply in_map_iff in Hd as (c & <- & Hc). apply filter_In in Hc as [Hc Hs].
  cbn [doc_score doc_content].
  split; [destruct (Qlt_le_dec (1 # 100) (doc_score c)); [assumption | discriminate]|].
  apply length_take.
Qed.


(* ===================================================================== *)
(** * Error classification *)
(* ===================================================================== *)

Lemma find_error_type (text : string) :
  match List.find (fun et => Text.contains text et.1) error_types with
  | Some (_, kind) => In kind ["sql_syntax_error"; "sql_table_error"; "sql_column_error"]
  | None => True
  end.
Proof.
  unfold error_types. cbn [List.find fst].
  repeat (match goal with |- context [Text.contains text ?p] =>
            destruct (Text.contains text p) end; [cbn; tauto|]).
  exact I.
Qed.

(** X6. [_detect_sql_error] reports an error exactly when the query result
    carries a non-empty error text; its tag is one of the four query-family
    kinds followed by a colon and the store's message, so it always starts
    with [sql_]. *)
Theorem detect_sql_error_tag (state : AgentState) :
  match _detect_sql_error state with
  | Some tag =>
      exists r text kind,
        sql_result state = Some r /\ sqlite_tool.error r = Some text /\ text <> EmptyString
        /\ In kind ["sql_syntax_error"; "sql_table_error"; "sql_column_error";
                    "sql_execution_error"]
        /\ tag = kind ++ ": " ++ text
        /\ Text.startswith tag "sql_" = true
  | None =>
      match sql_result state with
      | Some r => truthy (sqlite_tool.error r) = false
      | None => True
      end
  end.
Proof.
  unfold _detect_sql_error.
  destruct (sql_result state) as [r|] eqn:Hr; [|exact I].
  destruct (sqlite_tool.error r) as [text|] eqn:He; [|reflexivity].
  destruct (nonempty text) eqn:Hne; cbn [negb truthy]; [|exact Hne].
  pose proof (find_error_type (Text.lower text)) as Hk.
  destruct (List.find _ error_types) as [[pat kind]|].
  - exists r, text, kind.
    split; [reflexivity|]. split; [exact He|]. split; [now apply nonempty_true|].
    split; [cbn in Hk |- *; tauto|]. split; [reflexivity|].
    cbn in Hk. destruct Hk as [<-|[<-|[<-|[]]]]; reflexivity.
  - exists r, text, "sql_execution_error".
    split; [reflexivity|]. split; [exact He|]. split; [now apply nonempty_true|].
    split; [cbn; tauto|]. split; reflexivity.
Qed.

(* ===================================================================== *)
(** * Coercion against validation *)
(* ===================================================================== *)

Section Validation.
Context `{B : Builtins}.

(** For a hint other than [int] and [float], validation only looks at the
    kind of container. *)
Lemma validate_container answer format_hint :
  format_hint <> "int" -> format_hint <> "float" ->
  _validate_format answer format_hint
  = if list_hint format_hint then is_list answer
    else if object_hint format_hint then is_dict answer else true.
Proof.
  intros Hi Hf. unfold _validate_format, list_hint, object_hint.
  apply String.eqb_neq in Hi, Hf. rewrite Hi, Hf.
  destruct (String.eqb_spec format_hint "list") as [->|Hl]; [reflexivity|].
  destruct (String.eqb_spec format_hint "object") as [->|Ho]; [reflexivity|].
  reflexivity.
Qed.

Lemma validate_after_format answer format_hint v :
  _format_answer answer format_hint = Ok v ->
  _validate_format v format_hint
  = if list_hint format_hint then is_list v
    else if object_hint format_hint then is_dict v else true.
Proof.
  intros H. apply format_answer_coerced in H.
  destruct (String.eqb_spec format_hint "int") as [->|Hi].
  { inversion H; subst; try reflexivity; try discriminate; congruence. }
  destruct (String.eqb_spec format_hint "float") as [->|Hf].
  { inversion H; subst; try reflexivity; try discriminate; congruence. }
  now apply validate_container.
Qed.

Lemma format_default_validates format_hint :
  _validate_format (_get_format_default format_hint) format_hint = true.
Proof.
  unfold _get_format_default.
  destruct (String.eqb_spec format_hint "int") as [->|Hi]; [reflexivity|].
  destruct (String.eqb_spec format_hint "float") as [->|Hf]; [reflexivity|].
  destruct (String.eqb_spec format_hint "list") as [->|Hl]; [reflexivity|].
  destruct (String.eqb_spec format_hint "object") as [->|Ho]; [reflexivity|].
  rewrite (validate_container _ format_hint Hi Hf).
  unfold list_hint, object_hint.
  apply String.eqb_neq in Hl, Ho. rewrite Hl, Ho, !orb_false_r.
  destruct (Text.startswith format_hint "list["); [reflexivity|].
  destruct (Text.startswith format_hint "{"); reflexivity.
Qed.

Lemma fallback_validates format_hint :
  _validate_format (get_fallback_answer format_hint) format_hint = true.
Proof.
  unfold get_fallback_answer.
  destruct (String.eqb_spec format_hint "int") as [->|Hi]; [reflexivity|].
  destruct (String.eqb_spec format_hint "float") as [->|Hf]; [reflexivity|].
  destruct (String.eqb_spec format_hint "list") as [->|Hl]; [reflexivity|].
  destruct (String.eqb_spec format_hint "object") as [->|Ho]; [reflexivity|].
  rewrite (validate_container _ format_hint Hi Hf).
  unfold list_hint, object_hint.
  apply String.eqb_neq in Hl, Ho. rewrite Hl, Ho, !orb_false_r.
  destruct (Text.startswith format_hint "list["); [reflexivity|].
  destruct (Text.startswith format_hint "{"); reflexivity.
Qed.

End Validation.

(** X7. The answer that [_format_answer] produces passes
    [_validate_format] for every hint that is not a [list] or [object]
    hint; for a [list] or [list[...]] hint it passes exactly when it is a
    sequence, and for an [object] or [{...}] hint exactly when it is a
    mapping. A format error can therefore only arise for a container hint. *)
Theorem formatted_answer_validates `{B : Builtins} (answer : value) (format_hint : string) :
  exists v,
    _format_answer answer format_hint = Ok v
    /\ _validate_format v format_hint
       = (if list_hint format_hint then is_list v
          else if object_hint format_hint then is_dict v else true).
Proof.
  destruct (format_answer_returns answer format_hint) as [v Hv].
  exists v. split; [exact Hv | exact (validate_after_format answer format_hint v Hv)].
Qed.

(** X8. The default answers always have the shape their hint asks for:
    both [_get_format_default] and the driver's [get_fallback_answer] pass
    [_validate_format], for every format hint. *)
Theorem default_answers_validate `{B : Builtins} (format_hint : string) :
  _validate_format (_get_format_default format_hint) format_hint = true
  /\ _validate_format (get_fallback_answer format_hint) format_hint = true.
Proof. split; [apply format_default_validates | apply fallback_validates].
Qed.

(* ===================================================================== *)
(** * Query text normalization: the fixed points *)
(* ===================================================================== *)

(** X9. The text that [_clean_sql] returns contains none of the three
    names it rewrites, and [_clean_sql] leaves a text unchanged exactly
    when none of them occurs in it. *)
Theorem clean_sql_fixed_points (sql : string) :
  Forall (fun pr => Text.contains (_clean_sql sql) pr.1 = false) dspy_signatures.replacements
  /\ (_clean_sql sql = sql <->
      Forall (fun pr => Text.contains sql pr.1 = false) dspy_signatures.replacements).
Proof.
  split; [apply clean_sql_no_alias|]. split.
  - intros H. pose proof (clean_sql_no_alias sql) as Hn. rewrite H in Hn. exact Hn.
  - intros H. unfold dspy_signatures.replacements in H.
    apply Forall_cons in H as [H1 H]. apply Forall_cons in H as [H2 H].
    apply Forall_cons in H as [H3 _]. cbn [fst] in *.
    rewrite _clean_sql_unfold.
    rewrite (replace_absent _ _ sql H1), (replace_absent _ _ sql H2).
    now apply replace_absent.
Qed.

(* ===================================================================== *)
(** * Confidence: decay and evidence *)
(* ===================================================================== *)

Lemma clamp_mono (lo x y : Q) :
  (x <= y)%Q -> (py_max lo (py_min 1 x) <= py_max lo (py_min 1 y))%Q.
Proof.
  intros H. unfold py_min.
  destruct (Qlt_le_dec x 1), (Qlt_le_dec y 1); unfold py_max;
    repeat match goal with |- context [Qlt_le_dec ?a ?b] => destruct (Qlt_le_dec a b) end;
    lra.
Qed.

Lemma decay_positive (n : Z) : (0 < (9 # 10) ^ n)%Q.
Proof. apply Qpower_0_lt. lra. Qed.

Lemma decay_succ (n : Z) : ((9 # 10) ^ (n + 1) == (9 # 10) ^ n * (9 # 10))%Q.
Proof. rewrite Qpower_plus by lra. reflexivity. Qed.

(** X10. With the same evidence, one more repair never raises the
    confidence; with the same repair count, a query result with rows, or a
    non-empty list of documents, never lowers it. *)
Theorem confidence_monotone
    (sql_result : option SQLResult) (retrieved_docs : list Doc) (repair_count : Z) :
  (_calculate_confidence sql_result retrieved_docs (repair_count + 1)
   <= _calculate_confidence sql_result retrieved_docs repair_count)%Q
  /\ (_calculate_confidence None retrieved_docs repair_count
      <= _calculate_confidence sql_result retrieved_docs repair_count)%Q
  /\ (_calculate_confidence sql_result [] repair_count
      <= _calculate_confidence sql_result retrieved_docs repair_count)%Q.
Proof.
  unfold _calculate_confidence.
  pose proof (decay_positive repair_count) as Hpos.
  pose proof (decay_succ repair_count) as Hsucc.
  cbn [has_rows some_item].
  set (d := ((9 # 10) ^ repair_count)%Q) in *.
  set (d1 := ((9 # 10) ^ (repair_count + 1))%Q) in *.
  split; [|split]; apply clamp_mono;
    destruct (has_rows sql_result), (some_item retrieved_docs); try rewrite Hsucc; nra.
Qed.

(* ===================================================================== *)
(** * The invariant of a run *)
(* ===================================================================== *)

Lemma string_length_append (a b : string) :
  String.length (a ++ b) = (String.length a + String.length b)%nat.
Proof.
  induction a as [|c a IH]; [reflexivity|].
  change (String c a ++ b) with (String c (a ++ b)). cbn [String.length]. now rewrite IH.
Qed.

Section Consistency.
Context `{B : Builtins}.

Lemma router_forward_route classified route :
  dspy_signatures.RouterModule_forward classified = Ok route ->
  In route dspy_signatures.routes.
Proof.
  destruct classified as [answer|e]; [|discriminate].
  destruct (router_route_cases answer) as (r & Hr & Hin). rewrite Hr. now intros [= <-].
Qed.

Lemma forward_explanation m format_hint sql_result retrieved_docs repair_count p :
  SynthesizerModule_forward m format_hint sql_result retrieved_docs repair_count = Ok p ->
  (String.length (dspy_signatures.explanation p) <= 200)%nat.
Proof.
  destruct m as [synthesis|e]; [|discriminate].
  unfold SynthesizerModule_forward. cbn [mbind exc_bind].
  intros H. apply bind_ok in H as (c & _ & H). apply bind_ok in H as (v & _ & [= <-]).
  cbn [dspy_signatures.explanation]. apply length_take.
Qed.

(** What each node does to the state. *)
Lemma node_fn_shape w t n state state' :
  node_fn w t n state = Ok state' ->
  match n with
  | router => exists r, In r dspy_signatures.routes /\ state' = set_route r state
  | retriever => exists docs, docs_bounded 3 docs /\ state' = set_retrieved_docs docs state
  | planner => exists c, state' = set_extracted_constraints c state
  | nl2sql => exists q, query_ok q /\ state' = set_sql q state
  | executor =>
      exists r, state' = set_error (if truthy (sqlite_tool.error r)
                                    then sqlite_tool.error r else None)
                                   (set_sql_result (Some r) state)
  | synthesizer =>
      exists a c e x, (String.length e <= 200)%nat
        /\ state' = set_citations x (set_explanation e (set_confidence c
                                                          (set_final_answer a state)))
  | repair => True
  | END => state' = state
  end.
Proof.
  destruct n; cbn [node_fn]; intros H.
  - unfold router_node in H. apply bind_ok in H as (r & Hr & [= <-]).
    exists r. split; [now apply router_forward_route in Hr | reflexivity].
  - unfold retriever_node in H. injection H as <-.
    pose proof (search_bounded (ranked w t) (question state) 3) as Hb.
    destruct (search (ranked w t) (question state) 3) as [|d docs] eqn:Hs; cbn [some_item].
    + exists []. split; [split; [cbn; lia | constructor] | reflexivity].
    + exists (d :: docs). split; [exact Hb | reflexivity].
  - unfold planner_node in H. apply bind_ok in H as (c & _ & H).
    apply bind_ok in H as (x & _ & [= <-]). eauto.
  - unfold nl2sql_node in H. apply bind_ok in H as (c & _ & H).
    apply bind_ok in H as (x & Hx & [= <-]). exists x. split; [|reflexivity].
    destruct (generate w t (question state)) as [answer|e]; [|discriminate].
    destruct (nl2sql_forward_ok answer) as (q & Hq & Hok). congruence.
  - unfold executor_node in H. exists (execute (store w t) (sql state)).
    destruct (truthy (sqlite_tool.error (execute (store w t) (sql state))));
      injection H as <-; reflexivity.
  - unfold synthesizer_node in H. apply bind_ok in H as (p & Hp & [= <-]).
    do 4 eexists. split; [exact (forward_explanation _ _ _ _ _ _ Hp) | reflexivity].
  - exact I.
  - now injection H as <-.
Qed.

(** In a consistent state the repair node only counts: an error is
    detected and the counter is below the hard stop, so neither of its
    two branches that touch [confidence] and [error] is taken. *)
Lemma repair_node_only_counts state :
  repair_count state < 2 -> detected state = true ->
  repair_node state = Ok (set_repair_count (repair_count state + 1) state).
Proof.
  intros Hrc Hdet. unfold repair_node, hard_stop. cbn [repair_count set_repair_count].
  assert (H2 : (2 <? repair_count state + 1) = false) by (apply Z.ltb_ge; lia).
  rewrite H2.
  change (_detect_sql_error (set_repair_count (repair_count state + 1) state))
    with (_detect_sql_error state).
  change (_detect_format_error (set_repair_count (repair_count state + 1) state))
    with (_detect_format_error state).
  unfold detected in Hdet.
  destruct (truthy (_detect_sql_error state)), (truthy (_detect_format_error state));
    try discriminate; reflexivity.
Qed.

Lemma synced_detect state :
  error_synced state -> (error state = None <-> _detect_sql_error state = None).
Proof.
  unfold error_synced, _detect_sql_error. intros ->.
  destruct (sql_result state) as [r|]; [|tauto].
  destruct (sqlite_tool.error r) as [text|]; cbn [truthy]; [|tauto].
  destruct (nonempty text); cbn [negb]; [|tauto].
  destruct (List.find _ error_types) as [[? ?]|]; split; discriminate.
Qed.

Lemma synced_message state text :
  error_synced state -> error state = Some text ->
  exists r, sql_result state = Some r /\ sqlite_tool.error r = Some text /\ text <> EmptyString.
Proof.
  unfold error_synced. intros -> H.
  destruct (sql_result state) as [r|]; [|discriminate]. exists r. split; [reflexivity|].
  destruct (sqlite_tool.error r) as [t|]; cbn [truthy] in H; [|discriminate].
  destruct (nonempty t) eqn:Hne; [|discriminate]. injection H as ->.
  split; [reflexivity | now apply nonempty_true].
Qed.

Lemma mem_In (x : string) (l : list string) : dspy_signatures.mem x l = true <-> In x l.
Proof.
  unfold dspy_signatures.mem. rewrite existsb_exists. split.
  - intros (y & Hy & Heq). apply String.eqb_eq in Heq. now subst.
  - intros H. exists x. split; [exact H | apply String.eqb_refl].
Qed.

Lemma not_ragish_sqlish route :
  In route dspy_signatures.routes -> ragish route = false -> sqlish route = true.
Proof. intros [<-|[<-|[<-|[]]]]; cbn; congruence. Qed.

(** Every step of the graph keeps the state consistent. *)
Lemma step_consistent w t n state n' state' :
  step w t n state = Ok (n', state') ->
  n <> END -> consistent n state -> consistent n' state'.
Proof.
  intros Hstep Hn Hc.
  pose proof Hc as (Hadm & Hsync & Hexp & Hrouter & Hroute & Hsql & Hrag & Hres & Hrep & _ & Hdocs & Hsqlc & _).
  destruct (step_progress _ _ _ _ _ _ Hstep Hn Hadm) as (Hadm' & _).
  unfold step in Hstep.
  apply bind_ok in Hstep as (s1 & Hnode & H). apply bind_ok in H as (n1 & Hedge & [= <- <-]).
  pose proof (node_fn_shape _ _ _ _ _ Hnode) as Hshape.
  unfold consistent. split; [exact Hadm'|]. clear Hadm'.
  destruct n; try congruence; cbn [edge] in Hedge.
  - (* router *)
    destruct Hshape as (r & Hr & ->). injection Hedge as <-.
    specialize (Hrouter eq_refl).
    pose proof (not_ragish_sqlish r Hr) as Hns.
    unfold error_synced, should_retrieve in *.
    cbn [error sql_result explanation route retrieved_docs sql set_route] in *. fold (ragish r).
    rewrite Hrouter in *.
    destruct (ragish r) eqn:Hrg; close_consistent.
  - (* retriever *)
    destruct Hshape as (docs & Hb & ->). injection Hedge as <-.
    specialize (Hroute ltac:(discriminate)).
    unfold error_synced, should_plan in *.
    cbn [error sql_result explanation route retrieved_docs sql set_retrieved_docs] in *.
    fold (sqlish (route state)).
    destruct (sqlish (route state)) eqn:Hsq; close_consistent.
  - (* planner *)
    destruct Hshape as (c & ->). injection Hedge as <-.
    specialize (Hroute ltac:(discriminate)). specialize (Hsql ltac:(tauto)).
    unfold error_synced, should_execute_sql in *.
    cbn [error sql_result explanation route retrieved_docs sql set_extracted_constraints] in *.
    fold (sqlish (route state)). rewrite Hsql. close_consistent.
  - (* nl2sql *)
    destruct Hshape as (q & Hq & ->). injection Hedge as <-.
    specialize (Hroute ltac:(discriminate)). specialize (Hsql ltac:(tauto)).
    unfold error_synced in *. cbn [error sql_result explanation route retrieved_docs sql set_sql] in *.
    close_consistent.
  - (* executor *)
    destruct Hshape as (r & ->). injection Hedge as <-.
    specialize (Hroute ltac:(discriminate)). specialize (Hsql ltac:(tauto)).
    unfold error_synced in *.
    cbn [error sql_result explanation route retrieved_docs sql set_error set_sql_result] in *.
    close_consistent.
  - (* synthesizer *)
    destruct Hshape as (a & c & e & x & He & ->). injection Hedge as <-.
    specialize (Hroute ltac:(discriminate)).
    set (s' := set_citations x (set_explanation e (set_confidence c (set_final_answer a state)))).
    unfold error_synced, should_repair in *.
    change (truthy (_detect_sql_error s') || truthy (_detect_format_error s'))
      with (detected s').
    change (error s') with (error state). change (sql_result s') with (sql_result state).
    change (explanation s') with e. change (route s') with (route state).
    change (repair_count s') with (repair_count state).
    change (retrieved_docs s') with (retrieved_docs state).
    change (sql s') with (sql state).
    destruct (2 <=? repair_count state) eqn:H2;
      [apply Z.leb_le in H2 | destruct (detected s') eqn:Hd]; close_consistent.
  - (* repair *)
    specialize (Hrep eq_refl). destruct Hadm as [_ Hlt]. specialize (Hlt eq_refl).
    cbn [node_fn] in Hnode. rewrite (repair_node_only_counts _ Hlt Hrep) in Hnode.
    injection Hnode as <-.
    specialize (Hroute ltac:(discriminate)).
    unfold error_synced, after_repair in *.
    cbn [error sql_result explanation route retrieved_docs sql set_repair_count] in *.
    destruct (error state) as [text|] eqn:Herr; [|discriminate].
    assert (Hsq : sqlish (route state) = true).
    { apply Hres. destruct (sql_result state); [discriminate | congruence]. }
    repeat case_match; injection Hedge as <-; close_consistent.
Qed.

(** Every state a run visits is consistent, and so is the state it ends
    with. *)
Lemma run_consistent fuel : forall w t n state,
  consistent n state ->
  Forall (fun c => consistent c.1 c.2) (run fuel w t n state).1
  /\ (forall state', (run fuel w t n state).2 = Finished state' -> consistent END state').
Proof.
  induction fuel as [|fuel IH]; intros w t n state Hc.
  - destruct n; cbn; (split; [constructor | intros ?; try discriminate; now intros [= <-]]).
  - destruct (decide (n = END)) as [->|Hn].
    { cbn. split; [constructor | now intros ? [= <-]]. }
    rewrite (run_step _ _ _ _ _ Hn).
    destruct (step w t n state) as [[n' state']|e] eqn:Hstep.
    + pose proof (step_consistent _ _ _ _ _ _ Hstep Hn Hc) as Hc'.
      specialize (IH w (S t) n' state' Hc').
      destruct (run fuel w (S t) n' state') as [visited outcome]. cbn [fst snd] in *.
      split; [constructor; [exact Hc | tauto] | tauto].
    + cbn [fst snd]. split; [|discriminate]. constructor; [exact Hc | constructor].
Qed.

Lemma initial_consistent question format_hint :
  consistent router (initial_state question format_hint).
Proof.
  unfold consistent. split; [apply initial_admissible|].
  unfold error_synced, docs_bounded. cbn.
  repeat split; try congruence; try lia; try discriminate; try (now left);
    try solve [constructor].
  intros [H|[H|H]]; discriminate.
Qed.

Lemma invoke_consistent fuel w question format_hint :
  Forall (fun c => consistent c.1 c.2) (invoke fuel w (initial_state question format_hint)).1
  /\ (forall state', (invoke fuel w (initial_state question format_hint)).2 = Finished state' ->
                     consistent END state').
Proof. apply run_consistent, initial_consistent. Qed.

End Consistency.

(* ===================================================================== *)
(** * Runs: what the repair node and the routes can do *)
(* ===================================================================== *)

Lemma nonempty_tag (c : ascii) (a b : string) : nonempty (String c a ++ b) = true.
Proof. reflexivity. Qed.

Section Undetected.
Context `{B : Builtins}.

Lemma undetected_clean state :
  detected state = false ->
  _detect_sql_error state = None
  /\ _validate_format (final_answer state) (format_hint state) = true.
Proof.
  unfold detected. intros H. apply orb_false_elim in H as [Hs Hf]. split.
  - unfold _detect_sql_error in *.
    destruct (sql_result state) as [r|]; [|reflexivity].
    destruct (sqlite_tool.error r) as [text|]; [|reflexivity].
    destruct (nonempty text); cbn [negb] in *; [|reflexivity].
    pose proof (find_error_type (Text.lower text)) as Hk.
    destruct (List.find _ error_types) as [[pat kind]|]; cbn [truthy] in Hs.
    + exfalso. cbn in Hk. destruct Hk as [<-|[<-|[<-|[]]]]; cbv in Hs; discriminate.
    + cbv in Hs. discriminate.
  - unfold _detect_format_error in Hf.
    destruct (_validate_format (final_answer state) (format_hint state)); [reflexivity|].
    cbn [negb truthy] in Hf. rewrite nonempty_tag in Hf. discriminate.
Qed.

End Undetected.

(** X11. In every run started from the initial state, the repair node
    changes nothing but [repair_count]: it is only entered when an error
    is detected and the counter is below 2, the state is the one the guard
    examined, so the error is detected again and neither the forced
    acceptance nor the recovery branch (which decay the confidence and
    clear the error) is executed. *)
Theorem repair_only_counts `{B : Builtins}
    (w : World) (question format_hint : string) (fuel : nat) :
  Forall (fun c =>
            c.1 = repair ->
            detected c.2 = true
            /\ repair_node c.2 = Ok (set_repair_count (repair_count c.2 + 1) c.2))
         (invoke fuel w (initial_state question format_hint)).1.
Proof.
  destruct (invoke_consistent fuel w question format_hint) as [Hall _].
  eapply Forall_impl; [exact Hall|].
  intros [n state] Hc Hn. cbn [fst snd] in *. subst n.
  destruct Hc as ([_ Hlt] & _ & _ & _ & _ & _ & _ & _ & Hrep & _).
  split; [now apply Hrep|]. apply repair_node_only_counts; auto.
Qed.

(** X12. In every run started from the initial state, each time the
    repair node is entered the [error] field is the store's own message
    when the query failed and [None] otherwise. The routing that follows
    goes back to query generation only if that message itself starts with
    [sql_], goes to the synthesizer for any other message, and raises
    [AttributeError] when no query error is detected. *)
Theorem routing_after_repair `{B : Builtins}
    (w : World) (question format_hint : string) (fuel : nat) :
  Forall (fun c =>
            c.1 = repair ->
            (error c.2 = None <-> _detect_sql_error c.2 = None)
            /\ (error c.2 = None -> repair_node c.2 ≫= after_repair = Raise no_startswith)
            /\ (forall text,
                  error c.2 = Some text ->
                  (exists r, sql_result c.2 = Some r /\ sqlite_tool.error r = Some text
                             /\ text <> EmptyString)
                  /\ repair_node c.2 ≫= after_repair
                     = Ok (if Text.startswith text "sql_" then nl2sql else synthesizer)))
         (invoke fuel w (initial_state question format_hint)).1.
Proof.
  destruct (invoke_consistent fuel w question format_hint) as [Hall _].
  eapply Forall_impl; [exact Hall|].
  intros [n state] Hc Hn. cbn [fst snd] in *. subst n.
  destruct Hc as ([_ Hlt] & Hsync & _ & _ & _ & _ & _ & _ & Hrep & _).
  rewrite (repair_node_only_counts state (Hlt eq_refl) (Hrep eq_refl)).
  cbn [mbind exc_bind]. unfold after_repair. cbn [error set_repair_count].
  split; [now apply synced_detect|]. split.
  - intros ->. reflexivity.
  - intros text Htext. split; [now apply synced_message|].
    rewrite Htext. destruct (Text.startswith text "sql_"); [reflexivity|].
    destruct (_ || _); reflexivity.
Qed.

Lemma sqlish_cases route : sqlish route = true -> route = "sql" \/ route = "hybrid".
Proof. intros H. apply mem_In in H. cbn in H. intuition. Qed.

Lemma ragish_cases route : ragish route = true -> route = "rag" \/ route = "hybrid".
Proof. intros H. apply mem_In in H. cbn in H. intuition. Qed.

(** X13. In every run started from the initial state, the route chosen by
    the router gates the nodes: the planner, the query generator and the
    executor only run for the routes [sql] and [hybrid], the retriever
    only for [rag] and [hybrid], and a state whose route is [rag] never
    holds a query result or an error. *)
Theorem route_gates_nodes `{B : Builtins}
    (w : World) (question format_hint : string) (fuel : nat) :
  Forall (fun c =>
            (c.1 <> router -> In (route c.2) ["rag"; "sql"; "hybrid"])
            /\ (c.1 = planner \/ c.1 = nl2sql \/ c.1 = executor ->
                route c.2 = "sql" \/ route c.2 = "hybrid")
            /\ (c.1 = retriever -> route c.2 = "rag" \/ route c.2 = "hybrid")
            /\ (route c.2 = "rag" -> sql_result c.2 = None /\ error c.2 = None))
         (invoke fuel w (initial_state question format_hint)).1.
Proof.
  destruct (invoke_consistent fuel w question format_hint) as [Hall _].
  eapply Forall_impl; [exact Hall|].
  intros [n state] Hc. cbn [fst snd] in *.
  destruct Hc as (_ & Hsync & _ & _ & Hroute & Hsql & Hrag & Hres & _).
  split; [exact Hroute|]. split; [intros H; now apply sqlish_cases, Hsql|].
  split; [intros H; now apply ragish_cases, Hrag|].
  intros Hr. assert (Hnone : sql_result state = None).
  { destruct (sql_result state) eqn:E; [|reflexivity].
    assert (Hs : sqlish (route state) = true) by (apply Hres; discriminate).
    rewrite Hr in Hs. discriminate. }
  split; [exact Hnone|]. unfold error_synced in Hsync. now rewrite Hnone in Hsync.
Qed.

(** X14. A run that finishes before the repair budget is spent ends
    clean: when the final [repair_count] is not 2, no query error is
    detected in the final state, its [error] field is [None], and its
    answer passes format validation. *)
Theorem finished_run_is_clean `{B : Builtins}
    (w : World) (question format_hint : string) (fuel : nat) :
  match (invoke fuel w (initial_state question format_hint)).2 with
  | Finished state =>
      repair_count state = 2
      \/ (_detect_sql_error state = None /\ error state = None
          /\ _validate_format (final_answer state) (graph_hybrid.format_hint state) = true)
  | _ => True
  end.
Proof.
  destruct (invoke_consistent fuel w question format_hint) as [_ Hfin].
  destruct (invoke fuel w (initial_state question format_hint)).2 as [state|e|n state];
    [|exact I|exact I].
  destruct (Hfin state eq_refl) as ([Hrc _] & Hsync & _ & _ & _ & _ & _ & _ & _ & Hend & _).
  destruct (Hend eq_refl) as [H2|Hd]; [left; lia|]. right.
  destruct (undetected_clean state Hd) as [Hs Hv].
  split; [exact Hs|]. split; [now apply synced_detect | exact Hv].
Qed.

(** X15. In every state a run visits, and in the state it ends with,
    there are at most three retrieved fragments, each with a score above
    0.01 and at most 500 characters of content: the synthesizer is never
    given more, whatever the ranking answers. *)
Theorem run_docs_bounded `{B : Builtins}
    (w : World) (question format_hint : string) (fuel : nat) :
  Forall (fun c => docs_bounded 3 (retrieved_docs c.2))
         (invoke fuel w (initial_state question format_hint)).1
  /\ match (invoke fuel w (initial_state question format_hint)).2 with
     | Finished state => docs_bounded 3 (retrieved_docs state)
     | _ => True
     end.
Proof.
  destruct (invoke_consistent fuel w question format_hint) as [Hall Hfin]. split.
  - eapply Forall_impl; [exact Hall|]. cbn beta.
    intros c (_ & _ & _ & _ & _ & _ & _ & _ & _ & _ & Hdocs & _). exact Hdocs.
  - destruct (invoke fuel w (initial_state question format_hint)).2 as [state|e|n state];
      [|exact I|exact I].
    destruct (Hfin state eq_refl) as (_ & _ & _ & _ & _ & _ & _ & _ & _ & _ & Hdocs & _).
    exact Hdocs.
Qed.

(** X16. The query a run hands to the store is never blank and never
    contains one of the rewritten names, so [execute] never takes its
    [empty_query] branch in a run; and the query of every visited state, like
    the one of the record that [process_question] writes, is either
    empty (no query was generated) or such a query. *)
Theorem run_queries_well_formed `{B : Builtins} (w : World) (item : Item) (fuel : nat) :
  Forall (fun c => (c.1 = executor -> query_ok (sql c.2))
                   /\ (sql c.2 = EmptyString \/ query_ok (sql c.2)))
         (invoke fuel w
            (initial_state (dspy_signatures.getattr (item_question item) EmptyString)
                           (dspy_signatures.getattr (item_format_hint item) "str"))).1
  /\ (out_sql (process_question w item) = EmptyString
      \/ query_ok (out_sql (process_question w item))).
Proof.
  set (question := dspy_signatures.getattr (item_question item) EmptyString).
  set (format_hint := dspy_signatures.getattr (item_format_hint item) "str").
  split.
  - destruct (invoke_consistent fuel w question format_hint) as [Hall _].
    eapply Forall_impl; [exact Hall|]. cbn beta.
    intros c (_ & _ & _ & _ & _ & _ & _ & _ & _ & _ & _ & Hsql & Hexec).
    split; [exact Hexec | exact Hsql].
  - destruct (invoke_consistent recursion_limit w question format_hint) as [_ Hfin].
    unfold process_question. fold question format_hint.
    destruct (invoke recursion_limit w (initial_state question format_hint)).2
      as [state|e|n state]; cbn [out_sql fallback_record]; [|now left|now left].
    destruct (Hfin state eq_refl) as (_ & _ & _ & _ & _ & _ & _ & _ & _ & _ & _ & Hsql & _).
    exact Hsql.
Qed.

(* ===================================================================== *)
(** * The output record *)
(* ===================================================================== *)

Section Output.
Context `{B : Builtins}.

Lemma output_answer_scalar answer format_hint :
  list_hint format_hint = false -> object_hint format_hint = false ->
  _validate_format (format_answer_for_output answer format_hint) format_hint = true.
Proof.
  intros Hl Ho. unfold format_answer_for_output.
  destruct (String.eqb_spec format_hint "int") as [->|Hi].
  { destruct (py_float (py_str answer)) as [f|e]; cbn [mbind exc_bind]; [|reflexivity].
    destruct (py_int f); reflexivity. }
  destruct (String.eqb_spec format_hint "float") as [->|Hf].
  { destruct (py_float (py_str answer)) as [f|e]; cbn [mbind exc_bind]; reflexivity. }
  fold (list_hint format_hint). fold (object_hint format_hint). rewrite Hl, Ho.
  cbn [mret exc_ret]. rewrite (validate_container _ format_hint Hi Hf), Hl, Ho. reflexivity.
Qed.

Lemma shorten_short explanation :
  (String.length explanation <= 200)%nat -> shorten explanation = explanation.
Proof.
  intros H. unfold shorten.
  destruct (200 <? String.length explanation)%nat eqn:E; [|reflexivity].
  apply Nat.ltb_lt in E. lia.
Qed.

End Output.

(** X17. Whatever happens in the run, the explanation of the record that
    [process_question] writes has at most 200 characters, and for a run
    that finishes it is the explanation of the final state, unchanged: the
    synthesizer has already cut it, so the driver's own shortening to two
    sentences never applies. *)
Theorem output_explanation_bounded `{B : Builtins} (w : World) (item : Item) :
  (String.length (out_explanation (process_question w item)) <= 200)%nat
  /\ match (invoke recursion_limit w
              (initial_state (dspy_signatures.getattr (item_question item) EmptyString)
                             (dspy_signatures.getattr (item_format_hint item) "str"))).2 with
     | Finished state => out_explanation (process_question w item) = explanation state
     | _ => True
     end.
Proof.
  unfold process_question.
  set (question := dspy_signatures.getattr (item_question item) EmptyString).
  set (format_hint := dspy_signatures.getattr (item_format_hint item) "str").
  destruct (invoke_consistent recursion_limit w question format_hint) as [_ Hfin].
  assert (Hfb : forall qid e,
             (String.length (out_explanation (fallback_record qid format_hint e)) <= 200)%nat).
  { intros qid e. cbn [out_explanation fallback_record]. rewrite string_length_append.
    pose proof (length_take 100 (exn_msg e)). cbn [String.length]. lia. }
  destruct (invoke recursion_limit w (initial_state question format_hint)).2 as [s|e|n s].
  - destruct (Hfin s eq_refl) as (_ & _ & Hexp & _).
    cbn [out_explanation]. rewrite (shorten_short _ Hexp). split; [exact Hexp | reflexivity].
  - split; [apply Hfb | exact I].
  - split; [apply Hfb | exact I].
Qed.

(** X18. For every format hint that is not a [list] or [object] hint, the
    answer of the record that [process_question] writes passes format
    validation, whether the run finished or the fallback record was
    written: an integer for [int], a float for [float]. *)
Theorem output_answer_validates `{B : Builtins} (w : World) (item : Item) :
  list_hint (dspy_signatures.getattr (item_format_hint item) "str") = true
  \/ object_hint (dspy_signatures.getattr (item_format_hint item) "str") = true
  \/ _validate_format (out_final_answer (process_question w item))
                      (dspy_signatures.getattr (item_format_hint item) "str") = true.
Proof.
  set (format_hint := dspy_signatures.getattr (item_format_hint item) "str").
  destruct (list_hint format_hint) eqn:Hl; [now left|].
  destruct (object_hint format_hint) eqn:Ho; [right; now left|]. right. right.
  unfold process_question. fold format_hint.
  destruct (invoke recursion_limit w _).2 as [s|e|n s]; cbn [out_final_answer fallback_record].
  - now apply output_answer_scalar.
  - apply fallback_validates.
  - apply fallback_validates.
Qed.

(* ===================================================================== *)
(** * The corpus: chunking of the documents *)
(* ===================================================================== *)

Lemma append_assoc (a b c : string) : ((a ++ b) ++ c = a ++ (b ++ c))%string.
Proof.
  induction a as [|x a IH]; [reflexivity|].
  change (String x ((a ++ b) ++ c) = String x (a ++ (b ++ c))). now rewrite IH.
Qed.

Lemma rstrip_cons c s :
  Text.rstrip (String c s)
  = match Text.rstrip s with
    | EmptyString => if Text.isspace c then EmptyString else String c EmptyString
    | t => String c t
    end.
Proof. reflexivity. Qed.

Lemma rstrip_idem s : Text.rstrip (Text.rstrip s) = Text.rstrip s.
Proof.
  induction s as [|c s IH]; [reflexivity|]. rewrite (rstrip_cons c s).
  destruct (Text.rstrip s) as [|d t] eqn:Hr.
  - destruct (Text.isspace c) eqn:Hc; [reflexivity|]. cbn. now rewrite Hc.
  - rewrite (rstrip_cons c (String d t)), IH. reflexivity.
Qed.

Lemma rstrip_app (a b : string) :
  Text.rstrip b <> EmptyString -> Text.rstrip (a ++ b) = (a ++ Text.rstrip b)%string.
Proof.
  intros Hb. induction a as [|c a IH]; [reflexivity|].
  change (String c a ++ b)%string with (String c (a ++ b)).
  change (String c a ++ Text.rstrip b)%string with (String c (a ++ Text.rstrip b)).
  cbn [Text.rstrip]. rewrite IH.
  destruct (a ++ Text.rstrip b)%string eqn:He; [|reflexivity].
  destruct a; [|discriminate He]. now destruct Hb.
Qed.

Lemma tidy_head s : tidy s -> head_ok s = true.
Proof.
  intros [Hn Hs]. destruct (strip_head s) as [H|H]; rewrite Hs in H; [|exact H].
  rewrite H in Hn. discriminate.
Qed.

Lemma tidy_rstrip s : tidy s -> Text.rstrip s = s.
Proof.
  intros H. pose proof (tidy_head s H) as Hh. destruct H as [_ Hs].
  unfold Text.strip in Hs. now rewrite (lstrip_id _ Hh) in Hs.
Qed.

Lemma strip_tidy s : nonempty (Text.strip s) = true -> tidy (Text.strip s).
Proof.
  intros Hn. split; [exact Hn|].
  destruct (strip_head s) as [H|H]; [rewrite H in Hn; discriminate|].
  unfold Text.strip at 1. rewrite (lstrip_id _ H).
  unfold Text.strip. apply rstrip_idem.
Qed.

Lemma nonempty_app (a b : string) : nonempty a = true -> nonempty (a ++ b) = true.
Proof. now destruct a. Qed.

Lemma head_ok_app (a b : string) : head_ok a = true -> head_ok (a ++ b) = true.
Proof. now destruct a. Qed.

Lemma tidy_join (a b : string) : tidy a -> tidy b -> tidy (a ++ " " ++ b).
Proof.
  intros Ha Hb. split; [apply nonempty_app, Ha|].
  unfold Text.strip. rewrite (lstrip_id _ (head_ok_app _ _ (tidy_head _ Ha))).
  rewrite rstrip_app.
  - f_equal. rewrite (rstrip_app " " b); rewrite (tidy_rstrip _ Hb); [reflexivity|].
    destruct Hb as [Hn _]. now destruct b.
  - rewrite (rstrip_app " " b); rewrite (tidy_rstrip _ Hb); [discriminate|].
    destruct Hb as [Hn _]. now destruct b.
Qed.

Lemma paragraphs_tidy text : Forall tidy (paragraphs text).
Proof.
  unfold paragraphs. apply List.Forall_forall. intros p Hp.
  apply in_map_iff in Hp as (q & <- & Hq). apply filter_In in Hq as [_ Hq].
  now apply strip_tidy.
Qed.

Lemma join_cons (sep x : string) (l : list string) :
  l <> [] -> Text.join sep (x :: l) = (x ++ sep ++ Text.join sep l)%string.
Proof. destruct l; [congruence | reflexivity]. Qed.

Section Chunking.

Variables (fname : string) (chunk_size : nat).

Lemma loop_ok_next chunk p ps :
  loop_ok chunk (p :: ps) -> loop_ok (if nonempty chunk then chunk ++ " " ++ p else p) ps.
Proof.
  intros [Hc Hps]. inversion Hps as [|? ? Hp Hps']; subst. split; [|exact Hps'].
  right. destruct Hc as [->|Hc]; [exact Hp|].
  destruct Hc as [Hn Hs]. rewrite Hn. apply tidy_join; [now split | exact Hp].
Qed.

Lemma loop_ok_fresh chunk p ps : loop_ok chunk (p :: ps) -> loop_ok p ps.
Proof.
  intros [_ Hps]. inversion Hps; subst. split; [now right | assumption].
Qed.

Lemma emit_content k chunk :
  chunk = EmptyString \/ tidy chunk -> chunk_content (emit fname k chunk) = chunk.
Proof. intros [->|[_ H]]; [reflexivity | exact H]. Qed.

Lemma emit_ok P k chunk :
  tidy chunk ->
  (String.length chunk <= chunk_size)%nat \/ In chunk P ->
  chunk_ok fname chunk_size P (emit fname k chunk).
Proof.
  intros Ht Hl. unfold chunk_ok. rewrite (emit_content k chunk (or_intror Ht)).
  split; [exact Ht|]. split; [reflexivity|]. split; [now exists k | exact Hl].
Qed.

Lemma loop_chunks P ps : forall k chunk,
  loop_ok chunk ps -> incl ps P ->
  (String.length chunk <= chunk_size)%nat \/ In chunk P ->
  Forall (chunk_ok fname chunk_size P) (chunk_paragraphs fname chunk_size k chunk ps).
Proof.
  induction ps as [|p ps IH]; intros k chunk Hok Hin Hlen; cbn [chunk_paragraphs].
  - destruct (nonempty chunk) eqn:Hn; [|constructor].
    constructor; [|constructor]. apply emit_ok; [|exact Hlen].
    destruct Hok as [[->|Ht] _]; [discriminate | exact Ht].
  - assert (Hin' : incl ps P) by (intros x Hx; apply Hin; now right).
    assert (Hp : In p P) by (apply Hin; now left).
    destruct (String.length chunk + String.length p + 1 <=? chunk_size)%nat eqn:Hfit.
    + apply Nat.leb_le in Hfit.
      apply IH; [now apply loop_ok_next | exact Hin' |].
      left. destruct (nonempty chunk); [|lia].
      rewrite !string_length_append. cbn. lia.
    + destruct (nonempty chunk) eqn:Hn.
      * constructor.
        -- apply emit_ok; [|exact Hlen].
           destruct Hok as [[->|Ht] _]; [discriminate | exact Ht].
        -- apply IH; [eapply loop_ok_fresh; exact Hok | exact Hin' | now right].
      * apply IH; [eapply loop_ok_fresh; exact Hok | exact Hin' | now right].
Qed.

(** The chunks of a file are numbered consecutively. *)
Lemma loop_ids ps : forall k chunk,
  List.map chunk_id (chunk_paragraphs fname chunk_size k chunk ps)
  = List.map (chunk_name fname) (seq k (length (chunk_paragraphs fname chunk_size k chunk ps))).
Proof.
  induction ps as [|p ps IH]; intros k chunk; cbn [chunk_paragraphs].
  - destruct (nonempty chunk); reflexivity.
  - destruct (String.length chunk + String.length p + 1 <=? chunk_size)%nat; [apply IH|].
    destruct (nonempty chunk); [|apply IH].
    cbn [List.map length seq]. f_equal. apply IH.
Qed.

(** A pending chunk is never lost. *)
Lemma loop_flushes ps : forall k chunk,
  nonempty chunk = true -> chunk_paragraphs fname chunk_size k chunk ps <> [].
Proof.
  induction ps as [|p ps IH]; intros k chunk Hn; cbn [chunk_paragraphs]; rewrite Hn.
  - discriminate.
  - destruct (String.length chunk + String.length p + 1 <=? chunk_size)%nat; [|discriminate].
    apply IH. now apply nonempty_app.
Qed.

(** Joined by single spaces, the chunks read as the pending chunk
    followed by the paragraphs. *)
Lemma loop_text ps : forall k chunk,
  loop_ok chunk ps ->
  Text.join " " (List.map chunk_content (chunk_paragraphs fname chunk_size k chunk ps))
  = Text.join " " (if nonempty chunk then chunk :: ps else ps).
Proof.
  induction ps as [|p ps IH]; intros k chunk Hok; cbn [chunk_paragraphs].
  - destruct (nonempty chunk) eqn:Hn; [|reflexivity].
    cbn [List.map Text.join]. apply emit_content, Hok.
  - pose proof (loop_ok_next _ _ _ Hok) as Hnext.
    pose proof (loop_ok_fresh _ _ _ Hok) as Hfresh.
    assert (Hp : nonempty p = true).
    { destruct Hok as [_ Hps]. inversion Hps as [|? ? [Hp _] _]; subst. exact Hp. }
    destruct (String.length chunk + String.length p + 1 <=? chunk_size)%nat.
    + rewrite (IH _ _ Hnext). destruct (nonempty chunk) eqn:Hn.
      * rewrite (nonempty_app chunk (" " ++ p) Hn).
        rewrite (join_cons " " chunk (p :: ps)) by discriminate.
        destruct ps as [|q ps]; [reflexivity|].
        rewrite !join_cons by discriminate. now rewrite !append_assoc.
      * now rewrite Hp.
    + destruct (nonempty chunk) eqn:Hn.
      * cbn [List.map]. rewrite join_cons.
        -- rewrite (IH _ _ Hfresh), Hp, (emit_content k chunk (proj1 Hok)).
           now rewrite (join_cons " " chunk (p :: ps)) by discriminate.
        -- intros He. apply map_eq_nil in He. now apply (loop_flushes ps (S k) p Hp).
      * now rewrite (IH _ _ Hfresh), Hp.
Qed.

Lemma loop_empty ps k :
  Forall tidy ps -> (chunk_paragraphs fname chunk_size k EmptyString ps = [] <-> ps = []).
Proof.
  intros Hps. destruct ps as [|p ps]; [now split|].
  split; [|discriminate]. intros He. exfalso.
  inversion Hps as [|? ? [Hp _] _]; subst.
  cbn [chunk_paragraphs nonempty] in He.
  destruct (String.length EmptyString + String.length p + 1 <=? chunk_size)%nat;
    now apply (loop_flushes ps k p Hp).
Qed.

End Chunking.

Lemma load_docs_app (files1 files2 : list (string * string)) (chunk_size : nat) :
  _load_docs (files1 ++ files2) chunk_size
  = (_load_docs files1 chunk_size ++ _load_docs files2 chunk_size)%list.
Proof. unfold _load_docs. now rewrite List.filter_app, List.flat_map_app. Qed.

Lemma load_docs_one (fname text : string) (chunk_size : nat) :
  _load_docs [(fname, text)] chunk_size
  = if is_text_file fname
    then chunk_paragraphs fname chunk_size 0 EmptyString (paragraphs text)
    else [].
Proof.
  unfold _load_docs. cbn [List.filter fst snd].
  destruct (is_text_file fname); [|reflexivity].
  cbn [List.flat_map fst snd]. apply app_nil_r.
Qed.

Lemma initial_loop_ok text : loop_ok EmptyString (paragraphs text).
Proof. split; [now left | apply paragraphs_tidy]. Qed.

(** X19. Every chunk of the corpus is a non-empty text without white
    space at either end; its source is a file of the directory whose
    name ends in .txt or .md whatever the case, and its id is that name
    followed by ::chunk and a number; its content is at most chunk_size
    characters long unless it is a single paragraph of its file. *)
Theorem load_docs_chunks_well_formed (files : list (string * string)) (chunk_size : nat) :
  Forall (fun c =>
            nonempty (chunk_content c) = true
            /\ Text.strip (chunk_content c) = chunk_content c
            /\ is_text_file (chunk_source c) = true
            /\ (exists i, chunk_id c = chunk_name (chunk_source c) i)
            /\ exists text,
                 In (chunk_source c, text) files
                 /\ ((String.length (chunk_content c) <= chunk_size)%nat
                     \/ In (chunk_content c) (paragraphs text)))
         (_load_docs files chunk_size).
Proof.
  apply List.Forall_forall. intros c Hc. unfold _load_docs in Hc.
  apply in_flat_map in Hc as ([fname text] & Hf & Hc). cbn [fst snd] in Hc.
  apply filter_In in Hf as [Hf Hext]. cbn [fst] in Hext.
  pose proof (loop_chunks fname chunk_size (paragraphs text) (paragraphs text) 0 EmptyString
                (initial_loop_ok text) (incl_refl _) (or_introl (Nat.le_0_l _))) as Hall.
  rewrite List.Forall_forall in Hall.
  destruct (Hall c Hc) as ([Hn Hs] & Hsrc & Hid & Hlen). rewrite Hsrc.
  split; [exact Hn|]. split; [exact Hs|]. split; [exact Hext|]. split; [exact Hid|].
  exists text. split; [exact Hf | exact Hlen].
Qed.

(** X20. The chunks of one file are numbered 0, 1, 2, ... in the order
    they are produced, and the corpus of a directory is the
    concatenation of the chunks of its files in directory order. *)
Theorem load_docs_ids_consecutive (fname text : string) (chunk_size : nat) :
  List.map chunk_id (_load_docs [(fname, text)] chunk_size)
  = List.map (chunk_name fname) (seq 0 (length (_load_docs [(fname, text)] chunk_size)))
  /\ forall files1 files2,
       _load_docs (files1 ++ files2) chunk_size
       = (_load_docs files1 chunk_size ++ _load_docs files2 chunk_size)%list.
Proof.
  split; [|intros; apply load_docs_app].
  rewrite load_docs_one. destruct (is_text_file fname); [apply loop_ids | reflexivity].
Qed.

(** X21. Chunking loses nothing and invents nothing: the contents of the
    chunks of a text file, joined by single spaces, are the stripped
    non-blank paragraphs of the file joined by single spaces. *)
Theorem load_docs_preserves_text (fname text : string) (chunk_size : nat) :
  Text.join " " (List.map chunk_content (_load_docs [(fname, text)] chunk_size))
  = if is_text_file fname then Text.join " " (paragraphs text) else EmptyString.
Proof.
  rewrite load_docs_one. destruct (is_text_file fname); [|reflexivity].
  now rewrite (loop_text fname chunk_size _ 0 EmptyString (initial_loop_ok text)).
Qed.

(** X22. The corpus is empty exactly when no text file of the directory
    has a non-blank paragraph, the case in which the constructor of the
    retriever raises ValueError. *)
Theorem load_docs_empty_iff (files : list (string * string)) (chunk_size : nat) :
  _load_docs files chunk_size = []
  <-> Forall (fun f => is_text_file (fst f) = true -> paragraphs (snd f) = []) files.
Proof.
  induction files as [|[fname text] files IH].
  - split; [constructor | reflexivity].
  - change ((fname, text) :: files) with ([(fname, text)] ++ files)%list.
    rewrite load_docs_app, load_docs_one. cbn [app].
    split.
    + intros He. apply app_eq_nil in He as [He1 He2]. constructor; [|now apply IH].
      cbn [fst snd]. intros Hext. rewrite Hext in He1.
      now apply (loop_empty fname chunk_size _ 0 (paragraphs_tidy text)).
    + intros Hall. inversion Hall as [|? ? Hhd Htl]; subst. cbn [fst snd] in Hhd.
      rewrite (proj2 IH Htl), app_nil_r.
      destruct (is_text_file fname); [|reflexivity].
      rewrite (Hhd eq_refl). reflexivity.
Qed.

(* ===================================================================== *)
(** * The schema of the store *)
(* ===================================================================== *)

Lemma main_tables_names objects :
  Forall (fun t => In (fst t) relevant_tables
                   /\ (fst t = "order_items" -> snd t = order_items_sql))
         (main_tables objects).
Proof.
  unfold main_tables. apply List.Forall_forall. intros t Ht.
  apply in_map_iff in Ht as (obj & <- & Hobj). apply filter_In in Hobj as [_ Hrel].
  apply existsb_exists in Hrel as (name & Hname & Heq). apply String.eqb_eq in Heq.
  destruct (String.eqb_spec (fst obj) "order_items") as [He|Hne]; cbn [fst snd].
  - split; [now rewrite Heq | reflexivity].
  - split; [now rewrite Heq | intros H; now destruct Hne].
Qed.

Lemma main_tables_order objects :
  List.map fst (main_tables objects)
  = List.filter (fun name => existsb (String.eqb name) relevant_tables) (List.map fst objects).
Proof.
  unfold main_tables. induction objects as [|obj objects IH]; [reflexivity|].
  cbn [List.filter List.map].
  destruct (existsb (String.eqb (fst obj)) relevant_tables); [|exact IH].
  cbn [List.map]. rewrite IH. f_equal. now destruct (String.eqb (fst obj) "order_items").
Qed.

(** X23. The schema lists only the relevant tables and views, in the
    order of the store, the view order_items always with its fixed
    definition; a successful answer is cached, so that every later call
    returns it without consulting the store, while a failure yields the
    empty list and caches nothing. *)
Theorem schema_cached_and_relevant
    (master master' : exc (list (string * option string)))
    (_schema_cache : option (list (string * string))) :
  let (tables, cache) := schema master _schema_cache in
  (_schema_cache = None ->
     match master with
     | Ok objects =>
         Forall (fun t => In (fst t) relevant_tables
                          /\ (fst t = "order_items" -> snd t = order_items_sql)) tables
         /\ List.map fst tables
            = List.filter (fun name => existsb (String.eqb name) relevant_tables)
                          (List.map fst objects)
         /\ cache = Some tables
     | Raise _ => tables = [] /\ cache = None
     end)
  /\ (cache <> None -> schema master' cache = (tables, cache)).
Proof.
  unfold schema. destruct _schema_cache as [cached|].
  - split; [discriminate | reflexivity].
  - destruct master as [objects|e].
    + split; [|reflexivity]. intros _.
      split; [apply main_tables_names|]. split; [apply main_tables_order | reflexivity].
    + split; [now intros _ | congruence].
Qed.
